(** * StudyMate: the ingestion-to-retrieval pipeline

    A shallow embedding of the pipeline code (block sanitizer, chunk builder,
    layout extractor, page job protocol, ingestor, indexer and searcher) and
    the properties of its specification.

    Python values are represented as follows.
    - [str] is [string]; a character is a code point below 256.
    - [int] is [Z]; the vertical position [y] of a block is integral in every
      producer ([float(y1)] of an [int], an [enumerate] index, or [0.0]), so
      it is a [Z] too and [int(y)] is the identity.
    - a block or chunk dictionary is a record; a key some producer leaves out
      and the code reads with [dict.get] is an [option] field.
    - a raised exception is the [Raise] case of [result]. *)

From Stdlib Require Import ZArith Lia Ascii String QArith.
From stdpp Require Import gmap strings list sorting.

Open Scope string_scope.
Open Scope list_scope.
Open Scope Z_scope.

(** ** Exceptions and results *)

Inductive exn : Type :=
  | ValueError (msg : string)
  | RuntimeError (msg : string)
  | TypeError (msg : string)
  | KeyError (key : string)
  | IndexError
  | FileNotFoundError (path : string)
  | QueueEmpty
  | TimeoutError.

Inductive result (A : Type) : Type :=
  | Ok (a : A)
  | Raise (e : exn).
Arguments Ok {A} a.
Arguments Raise {A} e.

Definition bind {A B : Type} (r : result A) (k : A → result B) : result B :=
  match r with
  | Ok a => k a
  | Raise e => Raise e
  end.

Notation "'let?' x ':=' r 'in' k" := (bind r (λ x, k))
  (at level 10, x name, r at level 100, k at level 200).

(** ** Python strings *)

Module PyStr.

(** [str.isspace] of one character, which is also what [\s] matches in a
    [str] pattern: TAB..CR, FS..US, SPACE, NEL and NBSP. *)
Definition isspace (c : ascii) : bool :=
  let n := N.to_nat (N_of_ascii c) in
  ((9 <=? n) && (n <=? 13) || (28 <=? n) && (n <=? 32)
   || (n =? 133) || (n =? 160))%nat.

(** [str.lower] of one character: A..Z and the capital letters of Latin-1
    (all of U+00C0..U+00DE but the multiplication sign) move up by 32. *)
Definition lower_char (c : ascii) : ascii :=
  let n := N.to_nat (N_of_ascii c) in
  if ((65 <=? n) && (n <=? 90)
      || (192 <=? n) && (n <=? 222) && negb (n =? 215))%nat
  then ascii_of_nat (n + 32)
  else c.

Fixpoint lower (s : string) : string :=
  match s with
  | "" => ""
  | String c r => String (lower_char c) (lower r)
  end.

(** [re.sub(r"\s+", " ", s)]: a maximal run of white space becomes one
    space.  [in_ws] tells that the previous character was white space. *)
Fixpoint collapse_ws_go (in_ws : bool) (s : string) : string :=
  match s with
  | "" => ""
  | String c r =>
      if isspace c
      then if in_ws then collapse_ws_go true r
           else String " " (collapse_ws_go true r)
      else String c (collapse_ws_go false r)
  end.
Definition collapse_ws : string → string := collapse_ws_go false.

Fixpoint lstrip (s : string) : string :=
  match s with
  | "" => ""
  | String c r => if isspace c then lstrip r else s
  end.

Fixpoint rstrip (s : string) : string :=
  match s with
  | "" => ""
  | String c r =>
      let r' := rstrip r in
      if isspace c && bool_decide (r' = "") then "" else String c r'
  end.

(** [s.strip()] *)
Definition strip (s : string) : string := lstrip (rstrip s).

(** [s.split()]: the maximal runs of characters that are not white space.
    [cur] is the word being read, reversed. *)
Fixpoint split_go (cur : string) (s : string) : list string :=
  match s with
  | "" => if bool_decide (cur = "") then [] else [String.rev cur]
  | String c r =>
      if isspace c
      then (if bool_decide (cur = "") then [] else [String.rev cur])
             ++ split_go "" r
      else split_go (String c cur) r
  end.
Definition split : string → list string := split_go "".

(** [len(s)] *)
Definition len (s : string) : Z := Z.of_nat (String.length s).

(** [needle in s] *)
Fixpoint contains (needle s : string) : bool :=
  String.prefix needle s
  || match s with
     | "" => false
     | String _ r => contains needle r
     end.

(** [str * n] for a one-character string, used to build long inputs. *)
Fixpoint repeat_char (c : ascii) (n : nat) : string :=
  match n with
  | O => ""
  | S k => String c (repeat_char c k)
  end.

End PyStr.

(** ** Blocks

    [{type, text, page, y, filename, user_id}].  Every producer sets [text],
    which the chunk builder reads as [b["text"]]; the other keys are read
    with [dict.get] and a default. *)

Record Block : Type := mkBlock {
  blk_type : option string;
  blk_text : string;
  blk_page : option Z;
  blk_y : option Z;
  blk_filename : option string;
  blk_user_id : option string
}.

#[global] Instance Block_eq_dec : EqDecision Block.
Proof. solve_decision. Defined.

(** [b.get("page", 0)] *)
Definition get_page (b : Block) : Z := default 0 (blk_page b).
(** [int(b.get("y", 0))] *)
Definition get_y (b : Block) : Z := default 0 (blk_y b).
(** [(b.get("type") or "").lower()] *)
Definition get_type_lower (b : Block) : string :=
  PyStr.lower (default "" (blk_type b)).

Definition set_text (b : Block) (t : string) : Block :=
  {| blk_type := blk_type b; blk_text := t; blk_page := blk_page b;
     blk_y := blk_y b; blk_filename := blk_filename b;
     blk_user_id := blk_user_id b |}.

(** ** core/block_processor.py *)

Module BlockProcessor.

(** [_norm_text]: collapse white space, trim, lowercase. *)
Definition _norm_text (s : string) : string :=
  PyStr.lower (PyStr.strip (PyStr.collapse_ws s)).

(** The value stored per normalized text: [{"pages": set(), "ys": []}]. *)
Record Info : Type := mkInfo { pages : gset Z; ys : list Z }.

Definition empty_info : Info := mkInfo ∅ [].

Section sanitizer.
Variables (min_repeat y_tolerance max_header_words max_header_chars : Z).

(** The test that skips a text in the first loop. *)
Definition skipped (txt : string) : bool :=
  bool_decide (txt = "")
  || (max_header_chars <? PyStr.len txt)
  || (max_header_words <? Z.of_nat (length (PyStr.split txt))).

(** Body of the first loop: one block into [stats]. *)
Definition collect_step (stats : gmap string Info) (b : Block)
  : gmap string Info :=
  let txt := _norm_text (blk_text b) in
  if skipped txt then stats
  else
    let info := default empty_info (stats !! txt) in
    <[txt := mkInfo (pages info ∪ {[get_page b]}) (ys info ++ [get_y b])]>
      stats.

Definition collect (blocks : list Block) : gmap string Info :=
  foldl collect_step ∅ blocks.

(** [ys = sorted(info["ys"]); ys[-1] - ys[0] <= y_tolerance].  The list
    is never empty for a key of [stats]; on an empty list Python would
    raise, and nothing is added to the set. *)
Definition spread_within (l : list Z) : bool :=
  let s := merge_sort Z.le l in
  match head s, last s with
  | Some lo, Some hi => hi - lo <=? y_tolerance
  | _, _ => false
  end.

(** The test of the second loop. *)
Definition repeated (info : Info) : bool :=
  negb (Z.of_nat (size (pages info)) <? min_repeat)
  && spread_within (ys info).

(** Second loop: the keys of [stats] that pass the test. *)
Definition texts_to_drop (stats : gmap string Info) : gset string :=
  dom (filter (λ kv, repeated kv.2 = true) stats).

(** State of the third loop. *)
Record Scan : Type := mkScan {
  cleaned : list Block;
  current_page : option Z;
  seen_header_this_page : bool
}.

(** Body of the third loop.  The [page-footer] branch only logs: control
    falls through to the tests below it. *)
Definition scan_step (drop : gset string) (st : Scan) (b : Block) : Scan :=
  let page := get_page b in
  let st1 :=
    if bool_decide (current_page st = Some page) then st
    else mkScan (cleaned st) (Some page) false in
  let btype := get_type_lower b in
  let txt_norm := _norm_text (blk_text b) in
  if bool_decide (btype = "page-header") then
    if seen_header_this_page st1 then st1
    else mkScan (cleaned st1) (current_page st1) true
  else if bool_decide (txt_norm ∈ drop) then st1
  else mkScan (cleaned st1 ++ [b]) (current_page st1)
              (seen_header_this_page st1).

Definition remove_page_headers_footers (blocks : list Block) : list Block :=
  let drop := texts_to_drop (collect blocks) in
  cleaned (foldl (scan_step drop) (mkScan [] None false) blocks).

End sanitizer.

(** The call made by the ingestor: every parameter at its default. *)
Definition sanitize (blocks : list Block) : list Block :=
  remove_page_headers_footers 3 20 12 80 blocks.

End BlockProcessor.

(** ** core/chunk_builder.py *)

Module ChunkBuilder.

(** The arguments given to the library class [RecursiveCharacterTextSplitter]. *)
Record SplitterConfig : Type := mkSplitterConfig {
  chunk_size : Z;
  chunk_overlap : Z;
  separators : list string
}.

(** The library's [split_text], which is not code of this repository: its
    result for a configuration and a text. *)
Definition SplitterLib : Type := SplitterConfig → string → list string.

Record t : Type := mkChunkBuilder { splitter : SplitterConfig }.

Definition newline : string := String "010"%char "".

(** [__init__(self, tokenizer_model, chunk_size=500, logger=None)]: neither
    argument reaches the splitter. *)
Definition __init__ (tokenizer_model : string) (chunk_size : Z) : t :=
  mkChunkBuilder
    (mkSplitterConfig 500 50 [newline +:+ newline; newline; "."; " "; ""]).

(** [seen[-windows:]] *)
Definition last_window (windows : Z) (seen : list string) : list string :=
  if windows =? 0 then seen
  else if 0 <? windows
       then drop (length seen - Z.to_nat windows)%nat seen
       else drop (Z.to_nat (- windows)) seen.

Definition dedup_step (windows : Z) (st : list string * list Block) (b : Block)
  : list string * list Block :=
  let '(seen, cleaned) := st in
  let txt := PyStr.lower (PyStr.strip (PyStr.collapse_ws (blk_text b))) in
  if bool_decide (txt ∈ last_window windows seen) then (seen, cleaned)
  else (seen ++ [txt], cleaned ++ [b]).

Definition remove_near_duplicates (blocks : list Block) (windows : Z)
  : list Block :=
  snd (foldl (dedup_step windows) ([], []) blocks).

(** [len(b["text"].strip().split())] *)
Definition word_count (b : Block) : Z :=
  Z.of_nat (length (PyStr.split (PyStr.strip (blk_text b)))).

(** [buffer["text"] += " " + txt] *)
Definition append_text (buffer b : Block) : Block :=
  set_text buffer (blk_text buffer +:+ " " +:+ PyStr.strip (blk_text b)).

(** Body of the loop of [merge_small_blocks]; the state is [merged] and
    [buffer].  A buffer is a copy of a block, which has a [text] key, so
    [if buffer:] tests that it is not [None]. *)
Definition merge_step (min_words : Z) (st : list Block * option Block)
  (b : Block) : list Block * option Block :=
  let '(merged, buffer) := st in
  let page := get_page b in
  if word_count b <? min_words then
    match buffer with
    | None => (merged, Some b)
    | Some buf =>
        if bool_decide (get_page buf = page)
        then (merged, Some (append_text buf b))
        else (merged ++ [buf], Some b)
    end
  else
    match buffer with
    | Some buf =>
        if bool_decide (get_page buf = page)
        then (merged ++ [append_text buf b], None)
        else (merged ++ [buf; b], None)
    | None => (merged ++ [b], None)
    end.

(** The end of [merge_small_blocks]: a pending buffer is emitted. *)
Definition flush (st : list Block * option Block) : list Block :=
  match st.2 with
  | Some buf => st.1 ++ [buf]
  | None => st.1
  end.

(** The loop started in any state, then the final flush. *)
Definition merge_from (min_words : Z) (st : list Block * option Block)
  (blocks : list Block) : list Block :=
  flush (foldl (merge_step min_words) st blocks).

Definition merge_small_blocks (blocks : list Block) (min_words : Z)
  : list Block :=
  merge_from min_words ([], None) blocks.

Definition split_text (lib : SplitterLib) (self : t) (text : string)
  : list string :=
  lib (splitter self) text.

End ChunkBuilder.

(** ** modules/page_job.py and modules/model_server.py *)

Module PageJob.

(** One box of the layout model with the text the OCR pass reads in it:
    [names[cls]], [y1] and [image_to_string(cropped)]. *)
Record Detection : Type := mkDetection {
  det_label : string;
  det_y1 : Z;
  det_ocr : string
}.

(** An item of the response queue: a pair [(job_id, results)], or the [None]
    that the shutdown code of the callers puts on it. *)
Definition Response : Type := option (string * list Detection).

(** What the wait loop does within a number of iterations: it leaves with
    the results, raises, or is still running. *)
Inductive Wait : Type :=
  | Got (results : list Detection) (resp_q : list Response)
  | Failed (e : exn)
  | Running (resp_q : list Response).

(** The loop [while True: jid, results = server_resp_q.get(timeout=30) ...]
    on a response queue to which nobody else writes: [get] on an empty queue
    waits for its timeout and raises [queue.Empty]; a response of another job
    goes back to the end of the queue. *)
Fixpoint wait_response (fuel : nat) (job_id : string) (resp_q : list Response)
  : Wait :=
  match fuel with
  | O => Running resp_q
  | S fuel' =>
      match resp_q with
      | [] => Failed QueueEmpty
      | None :: _ => Failed (TypeError "cannot unpack non-iterable NoneType")
      | Some (jid, results) :: rest =>
          if bool_decide (jid = job_id) then Got results rest
          else wait_response fuel' job_id (rest ++ [Some (jid, results)])
      end
  end.

(** The blocks of one page, from its detections. *)
Definition blocks_of (page_number : Z) (results : list Detection) : list Block :=
  omap (λ r,
          let text := PyStr.strip (det_ocr r) in
          if bool_decide (text = "") then None
          else Some (mkBlock (Some (PyStr.lower (det_label r))) text
                             (Some page_number) (Some (det_y1 r)) None None))
       results.

(** [page_job(args)], with the fresh [job_id] it draws and the two queues
    ([None] when they were not given); the request queue holds job ids. *)
Definition page_job (fuel : nat) (job_id : string) (page_number : Z)
  (server_req_q : option (list string)) (server_resp_q : option (list Response))
  : option (result (list Block)) :=
  match server_req_q, server_resp_q with
  | Some req_q, Some resp_q =>
      match wait_response fuel job_id resp_q with
      | Got results _ => Some (Ok (blocks_of page_number results))
      | Failed e => Some (Raise e)
      | Running _ => None
      end
  | _, _ =>
      Some (Raise (RuntimeError
        "server_req_q or server_resp_q were not provided to page_job!"))
  end.

End PageJob.

(** ** modules/layout_extractor.py and modules/document_loader.py *)

(** A paragraph of a DOCX file: [p.text] and [p.style.name]. *)
Record Paragraph : Type := mkParagraph {
  p_text : string;
  p_style_name : string
}.

(** What a file holds, as the libraries that open it report it.  For a PDF:
    the outcome of [page_job] for each page, in page order, and the text
    layer of each page ([page.extract_text() or ""]). *)
Inductive Content : Type :=
  | Pdf (page_results : list (result (list Block))) (text_layer : list string)
  | Docx (paragraphs : list Paragraph)
  | Txt (content : string)
  | OtherContent.

Record Document : Type := mkDocument {
  doc_name : string;
  doc_suffix : string;
  doc_content : Content
}.

Module LayoutExtractor.

(** [s.split(sep)] for a separator that is not empty.  [skip] counts the
    characters of a separator still to pass; [cur] is the piece being read,
    reversed. *)
Fixpoint split_on_go (sep : string) (skip : nat) (cur : string) (s : string)
  : list string :=
  match s with
  | "" => [String.rev cur]
  | String c r =>
      match skip with
      | S k => split_on_go sep k cur r
      | O =>
          if String.prefix sep s
          then String.rev cur :: split_on_go sep (String.length sep - 1) "" r
          else split_on_go sep 0 (String c cur) r
      end
  end.
Definition split_on (sep s : string) : list string := split_on_go sep 0 "" s.

(** [sorted(blocks, key=lambda b: (b["page"], b["y"]))]: a stable sort. *)
Definition key_le (a b : Block) : bool :=
  (get_page a <? get_page b)
  || ((get_page a =? get_page b) && (get_y a <=? get_y b)).

Fixpoint insert_sorted (b : Block) (l : list Block) : list Block :=
  match l with
  | [] => [b]
  | x :: r => if key_le x b then x :: insert_sorted b r else b :: x :: r
  end.

Definition sorted_by_key (l : list Block) : list Block :=
  foldl (λ acc b, insert_sorted b acc) [] l.

(** [for result in executor.map(page_job, tasks)]: results come in page
    order and the first page that failed raises there. *)
Fixpoint collect_pages (page_results : list (result (list Block)))
  : result (list (list Block)) :=
  match page_results with
  | [] => Ok []
  | Ok bs :: rest => let? rest' := collect_pages rest in Ok (bs :: rest')
  | Raise e :: _ => Raise e
  end.

Definition _extract_pdf (page_results : list (result (list Block)))
  : result (list Block) :=
  let? page_blocks_lists := collect_pages page_results in
  Ok (sorted_by_key (concat page_blocks_lists)).

Definition _extract_docx (paragraphs : list Paragraph) : list Block :=
  omap (λ p,
          let txt := PyStr.strip (p_text p) in
          if bool_decide (txt = "") then None
          else
            let btype :=
              if PyStr.contains "heading" (PyStr.lower (p_style_name p))
              then "title" else "text" in
            Some (mkBlock (Some btype) txt (Some 0) (Some 0) None None))
       paragraphs.

Definition _extract_txt (content : string) : list Block :=
  let paras :=
    filter (λ p, p ≠ "")
      (PyStr.strip <$>
         split_on (ChunkBuilder.newline +:+ ChunkBuilder.newline) content) in
  imap (λ i p, mkBlock (Some "text") p (Some 0) (Some (Z.of_nat i)) None None)
       paras.

Definition unreadable : exn := RuntimeError "the file cannot be opened".

(** [extract(path)]: by the lowercased suffix of the path. *)
Definition extract (doc : Document) : result (list Block) :=
  let ext := PyStr.lower (doc_suffix doc) in
  if bool_decide (ext = ".pdf") then
    match doc_content doc with
    | Pdf page_results _ => _extract_pdf page_results
    | _ => Raise unreadable
    end
  else if bool_decide (ext = ".docx") then
    match doc_content doc with
    | Docx paragraphs => Ok (_extract_docx paragraphs)
    | _ => Raise unreadable
    end
  else if bool_decide (ext = ".txt") then
    match doc_content doc with
    | Txt content => Ok (_extract_txt content)
    | _ => Raise unreadable
    end
  else Raise (ValueError ("Unsupported file type: " +:+ ext)).

End LayoutExtractor.

Module DocumentLoader.

(** ["\n".join(parts)] *)
Fixpoint join_lines (parts : list string) : string :=
  match parts with
  | [] => ""
  | [p] => p
  | p :: rest => p +:+ ChunkBuilder.newline +:+ join_lines rest
  end.

Definition load (doc : Document) : result string :=
  let ext := PyStr.lower (doc_suffix doc) in
  if bool_decide (ext = ".pdf") then
    match doc_content doc with
    | Pdf _ text_layer => Ok (join_lines text_layer)
    | _ => Raise LayoutExtractor.unreadable
    end
  else if bool_decide (ext = ".docx") then
    match doc_content doc with
    | Docx paragraphs => Ok (join_lines (p_text <$> paragraphs))
    | _ => Raise LayoutExtractor.unreadable
    end
  else if bool_decide (ext = ".txt") then
    match doc_content doc with
    | Txt content => Ok content
    | _ => Raise LayoutExtractor.unreadable
    end
  else Raise (ValueError ("Unsupported file type: " +:+ ext)).

End DocumentLoader.

(** ** Chunks, the vector store and the files of a deployment *)

Record Chunk : Type := mkChunk {
  ch_filename : string;
  chunk_id : Z;
  ch_text : string;
  ch_type : string;
  ch_page : Z;
  ch_user_id : string
}.

(** The normalized embedding of a text.  The embedding model is a function
    of the text; its vector is kept symbolic. *)
Inductive Vec : Type := Embedding (text : string).

Record Metadata : Type := mkMetadata {
  md_user_id : string;
  md_filename : string;
  md_chunk_id : Z
}.

(** A record of the Chroma collection ["documents"].  Its id is
    [str(chunk_id)], kept as the integer that [int(...)] reads back. *)
Record ChromaRecord : Type := mkChromaRecord {
  rec_id : Z;
  rec_document : string;
  rec_metadata : Metadata;
  rec_embedding : Vec
}.

(** An HNSW index file: the vectors by label [0..n-1] and the capacity. *)
Record HnswIndex : Type := mkHnswIndex {
  max_elements : nat;
  items : list Vec
}.

(** The persistent state the pipeline works on: the documents under
    [data_dir/<user_id>], the files [chunks_<user_id>.json],
    [hnsw_index_<user_id>.bin] and [mapping_<user_id>.json], each keyed by
    the user id, and the one Chroma collection all users share. *)
Record World : Type := mkWorld {
  data_dirs : gmap string (list Document);
  chunk_files : gmap string (list Chunk);
  hnsw_files : gmap string HnswIndex;
  mapping_files : gmap string (gmap nat Z);
  collection : list ChromaRecord
}.

Definition empty_world : World := mkWorld ∅ ∅ ∅ ∅ [].

(** ** pipeline/ingestor.py *)

Module Ingestor.

Inductive Mode : Type := Layout | TextMode.

Definition process_document_task (doc : Document) (user_id : string)
  : result (list Block) :=
  let? b := LayoutExtractor.extract doc in
  Ok ((λ blk, mkBlock (blk_type blk) (blk_text blk) (blk_page blk) (blk_y blk)
                      (Some (doc_name doc)) (Some user_id)) <$> b).

(** [pool.starmap(f, tasks)]: the list of results when every task returns;
    a task that raises makes the call raise.  When several tasks raise, the
    pool reports one of them; the model takes the first in task order. *)
Fixpoint starmap {A B : Type} (f : A → result B) (tasks : list A)
  : result (list B) :=
  match tasks with
  | [] => Ok []
  | x :: rest =>
      match f x with
      | Ok y => let? ys := starmap f rest in Ok (y :: ys)
      | Raise e => Raise e
      end
  end.

(** The blocks handed to the sanitizer, by mode. *)
Definition extract_all (mode : Mode) (user_id : string)
  (docs : list Document) : result (list Block) :=
  match mode with
  | Layout =>
      let? results :=
        starmap (λ doc, process_document_task doc user_id) docs in
      Ok (concat results)
  | TextMode =>
      starmap (λ doc,
                 let? text := DocumentLoader.load doc in
                 Ok (mkBlock (Some "text") text (Some 0) None
                             (Some (doc_name doc)) (Some user_id)))
              docs
  end.

Definition process_blocks (mode : Mode) (user_id : string)
  (docs : list Document) : result (list Block) :=
  let? blocks := extract_all mode user_id docs in
  Ok (BlockProcessor.sanitize blocks).

(** The extraction of one document raises. *)
Definition extraction_fails (mode : Mode) (doc : Document) : Prop :=
  match mode with
  | Layout => ∃ e, LayoutExtractor.extract doc = Raise e
  | TextMode => ∃ e, DocumentLoader.load doc = Raise e
  end.

(** The chunks of one block, numbered from [cid]. *)
Definition chunks_of_block (user_id : string) (cid : Z) (filename : string)
  (b : Block) (parts : list string) : list Chunk :=
  imap (λ i part,
          mkChunk filename (cid + Z.of_nat i) part
                  (default "text" (blk_type b)) (get_page b) user_id)
       parts.

(** The loop of [build_chunks]; [b["filename"]] raises when the key is
    missing. *)
Fixpoint number_chunks (lib : ChunkBuilder.SplitterLib) (chunker : ChunkBuilder.t)
  (user_id : string) (cid : Z) (blocks : list Block) : result (list Chunk) :=
  match blocks with
  | [] => Ok []
  | b :: rest =>
      let parts := ChunkBuilder.split_text lib chunker (blk_text b) in
      match blk_filename b with
      | None => match parts with
                | [] => number_chunks lib chunker user_id cid rest
                | _ => Raise (KeyError "filename")
                end
      | Some filename =>
          let? more := number_chunks lib chunker user_id
                   (cid + Z.of_nat (length parts)) rest in
          Ok (chunks_of_block user_id cid filename b parts ++ more)
      end
  end.

Definition build_chunks (lib : ChunkBuilder.SplitterLib) (chunker : ChunkBuilder.t)
  (user_id : string) (blocks : list Block) : result (list Chunk) :=
  let blocks := ChunkBuilder.remove_near_duplicates blocks 10 in
  let blocks := ChunkBuilder.merge_small_blocks blocks 20 in
  number_chunks lib chunker user_id 0 blocks.

(** [load_documents]: the files under the user's directory, none when the
    directory does not exist. *)
Definition load_documents (w : World) (user_id : string) : list Document :=
  default [] (data_dirs w !! user_id).

Definition save_chunks (w : World) (user_id : string) (chunks : list Chunk)
  : World :=
  mkWorld (data_dirs w) (<[user_id := chunks]> (chunk_files w))
          (hnsw_files w) (mapping_files w) (collection w).

(** [run]: the state it leaves, or the exception that ends it. *)
Definition run (lib : ChunkBuilder.SplitterLib) (chunker : ChunkBuilder.t)
  (mode : Mode) (user_id : string) (w : World) : result World :=
  let docs := load_documents w user_id in
  let? blocks := process_blocks mode user_id docs in
  let? chunks := build_chunks lib chunker user_id blocks in
  Ok (save_chunks w user_id chunks).

End Ingestor.

(** ** pipeline/indexer.py *)

(** What [collection.add] does with an id the collection already holds; it
    depends on the release of the library. *)
Inductive AddPolicy : Type :=
  | SkipExisting
  | Overwrite
  | RejectExisting.

Module Chroma.

Definition has_id (store : list ChromaRecord) (i : Z) : bool :=
  bool_decide (i ∈ rec_id <$> store).

Definition add_one (policy : AddPolicy) (store : list ChromaRecord)
  (r : ChromaRecord) : result (list ChromaRecord) :=
  if has_id store (rec_id r) then
    match policy with
    | SkipExisting => Ok store
    | Overwrite =>
        Ok ((λ x, if bool_decide (rec_id x = rec_id r) then r else x) <$> store)
    | RejectExisting => Raise (ValueError "ID already exists")
    end
  else Ok (store ++ [r]).

(** [collection.add(ids, documents, metadatas, embeddings)] *)
Fixpoint add (policy : AddPolicy) (store : list ChromaRecord)
  (records : list ChromaRecord) : result (list ChromaRecord) :=
  match records with
  | [] => Ok store
  | r :: rest => let? store' := add_one policy store r in add policy store' rest
  end.

(** [collection.get(ids=...)]: the records whose id is asked for. *)
Definition get (store : list ChromaRecord) (ids : list Z) : list ChromaRecord :=
  filter (λ r, rec_id r ∈ ids) store.

End Chroma.

Module Indexer.

(** [load_chunks]: no chunk when the file does not exist. *)
Definition load_chunks (w : World) (user_id : string) : list Chunk :=
  default [] (chunk_files w !! user_id).

Definition record_of (user_id : string) (ch : Chunk) : ChromaRecord :=
  mkChromaRecord (chunk_id ch) (ch_text ch)
    (mkMetadata user_id (ch_filename ch) (chunk_id ch))
    (Embedding (ch_text ch)).

(** [idx_to_uid = {str(i): str(ch["chunk_id"]) for i, ch in enumerate(chunks)}] *)
Definition mapping_of (chunks : list Chunk) : gmap nat Z :=
  list_to_map (imap (λ i ch, (i, chunk_id ch)) chunks).

(** [index_chunks]; on no chunk at all [embedding[0]] raises. *)
Definition index_chunks (policy : AddPolicy) (user_id : string)
  (chunks : list Chunk) (w : World) : result World :=
  let? store := Chroma.add policy (collection w) (record_of user_id <$> chunks) in
  match chunks with
  | [] => Raise IndexError
  | _ =>
      let embedding := (λ ch, Embedding (ch_text ch)) <$> chunks in
      let index := mkHnswIndex (length embedding * 2) embedding in
      Ok (mkWorld (data_dirs w) (chunk_files w)
                  (<[user_id := index]> (hnsw_files w))
                  (<[user_id := mapping_of chunks]> (mapping_files w))
                  store)
  end.

(** [run]: [index_chunks] is called only when there are chunks. *)
Definition run (policy : AddPolicy) (user_id : string) (w : World)
  : result World :=
  let chunks := load_chunks w user_id in
  match chunks with
  | [] => Ok w
  | _ => index_chunks policy user_id chunks w
  end.

End Indexer.

(** ** pipeline/searcher.py *)

Module Searcher.

(** The library's [knn_query(query, k)] on the vectors of an index: the
    labels of the neighbours, nearest first, or an exception. *)
Definition KnnLib : Type := list Vec → Vec → Z → result (list nat).

Record t : Type := mkSearcher {
  user_id : string;
  index : HnswIndex
}.

(** One entry of the result of [search].  The score is the distance at the
    same position of the answer of the index; its position stands for it. *)
Record Match : Type := mkMatch {
  m_id : Z;
  m_text : string;
  m_score_position : nat;
  m_metadata : Metadata
}.

(** [__init__]: [load_index] raises when the index file does not exist. *)
Definition __init__ (w : World) (user : string) : result t :=
  match hnsw_files w !! user with
  | Some idx => Ok (mkSearcher user idx)
  | None => Raise (RuntimeError "Cannot open file")
  end.

(** [[int(idx_to_uid[str(i)]) for i in labels[0]]] *)
Fixpoint translate (idx_to_uid : gmap nat Z) (labels : list nat)
  : result (list Z) :=
  match labels with
  | [] => Ok []
  | i :: rest =>
      match idx_to_uid !! i with
      | Some uid => let? ids := translate idx_to_uid rest in Ok (uid :: ids)
      | None => Raise (KeyError "label")
      end
  end.

Definition search (knn : KnnLib) (self : t) (w : World) (query : string)
  (top_k : Z) : result (list Match) :=
  match mapping_files w !! user_id self with
  | None => Raise (FileNotFoundError "mapping")
  | Some idx_to_uid =>
      let? labels := knn (items (index self)) (Embedding query) top_k in
      let? ids := translate idx_to_uid labels in
      let results := Chroma.get (collection w) ids in
      Ok (imap (λ i r, mkMatch (rec_id r) (rec_document r) i (rec_metadata r))
               results)
  end.

End Searcher.

(** ** Properties of the block sanitizer *)

Module SanitizerSpec.
Import BlockProcessor.

(** *** The candidate rule in the words of the specification *)

Fixpoint minimum (l : list Z) : option Z :=
  match l with
  | [] => None
  | x :: r => Some (from_option (Z.min x) x (minimum r))
  end.

Fixpoint maximum (l : list Z) : option Z :=
  match l with
  | [] => None
  | x :: r => Some (from_option (Z.max x) x (maximum r))
  end.

(** The blocks of [bs] whose normalized text is [t], in order. *)
Definition occurrences (t : string) (bs : list Block) : list Block :=
  filter (λ b, _norm_text (blk_text b) = t) bs.

(** The entry of [stats] for a text after the first loop has read the
    occurrences [o] of it, from the entry [i0] it had before. *)
Definition info_after (i0 : option Info) (o : list Block) : option Info :=
  match o with
  | [] => i0
  | _ =>
      Some (mkInfo (pages (default empty_info i0) ∪ list_to_set (get_page <$> o))
                   (ys (default empty_info i0) ++ (get_y <$> o)))
  end.

Section rule.
Variables (min_repeat y_tolerance max_header_words max_header_chars : Z).

(** Short enough to be a header or a footer, and not empty. *)
Definition within_ceiling (t : string) : bool :=
  negb (bool_decide (t = ""))
  && (PyStr.len t <=? max_header_chars)
  && (Z.of_nat (length (PyStr.split t)) <=? max_header_words).

(** The number of distinct pages on which [t] occurs. *)
Definition distinct_pages (t : string) (bs : list Block) : nat :=
  length (remove_dups (get_page <$> occurrences t bs)).

(** Largest minus smallest vertical position over all occurrences. *)
Definition spread (t : string) (bs : list Block) : option Z :=
  let l := get_y <$> occurrences t bs in
  hi ← maximum l; lo ← minimum l; Some (hi - lo).

Definition candidate (bs : list Block) (t : string) : bool :=
  within_ceiling t
  && (min_repeat <=? Z.of_nat (distinct_pages t bs))
  && match spread t bs with
     | Some d => d <=? y_tolerance
     | None => false
     end.

(** What the third loop keeps, given the set of texts to drop. *)
Definition kept (drop : gset string) (b : Block) : Prop :=
  get_type_lower b ≠ "page-header" ∧ _norm_text (blk_text b) ∉ drop.

#[local] Instance kept_dec drop b : Decision (kept drop b).
Proof. unfold kept. apply _. Defined.

End rule.
End SanitizerSpec.

(** ** Concrete inputs *)

Definition text_block (ty txt : string) (pg yy : Z) : Block :=
  mkBlock (Some ty) txt (Some pg) (Some yy) None None.

(** Three pages with the same short line near the same height. *)
Definition conf_blocks : list Block :=
  [ text_block "text" "Confidential  Draft" 0 100;
    text_block "text" "confidential draft " 1 105;
    text_block "text" " CONFIDENTIAL DRAFT" 2 98 ].

(** One block that the extractor tagged as a page footer. *)
Definition footer_only : list Block :=
  [ text_block "page-footer" "Page 1 of 9" 0 780 ].

(** One block that the extractor tagged as a page header. *)
Definition chapter_header : Block := text_block "page-header" "Chapter One" 0 40.

Definition header_only : list Block := [chapter_header].

(** A line on three pages at one height, and once more as a tagged page
    header far from that height. *)
Definition shared_header_blocks : list Block :=
  [ text_block "text" "Quarterly Report" 0 100;
    text_block "text" "Quarterly Report" 1 100;
    text_block "text" "Quarterly Report" 2 100;
    text_block "page-header" "Quarterly Report" 3 500 ].

(** A tagged header whose text no other block carries. *)
Definition own_header_blocks : list Block :=
  [ text_block "page-header" "Annual Review" 0 10;
    text_block "text" "The body of the first page." 0 200;
    text_block "text" "The body of the second page." 1 200 ].

(** A short block, a block of 22 words on the same page, and the same long
    block on the next page. *)
Definition intro_block : Block := text_block "title" "Intro text here." 0 0.

Definition body_text : string :=
  "This body paragraph has clearly more than twenty words so that the merge pass treats it as a full size block here.".

Definition body_block : Block := text_block "text" body_text 0 1.

Definition body_block_next_page : Block := text_block "text" body_text 1 1.

(** A DOCX file with a heading and two paragraphs, one of them blank. *)
Definition report_paragraphs : list Paragraph :=
  [ mkParagraph "Overview" "Heading 1";
    mkParagraph "   " "Normal";
    mkParagraph "First paragraph." "Normal";
    mkParagraph "Second paragraph." "Normal" ].

(** The same text as a plain text file. *)
Definition report_txt : string :=
  "Overview" +:+ ChunkBuilder.newline +:+ ChunkBuilder.newline
  +:+ "First paragraph." +:+ ChunkBuilder.newline +:+ ChunkBuilder.newline
  +:+ "Second paragraph.".

(** A response of another job, left on the response queue. *)
Definition stray_response : PageJob.Response :=
  Some ("job-of-another-page", [PageJob.mkDetection "Text" 12 "hello"]).

(** A splitter that returns every text in one piece, as the library does
    for a text shorter than its chunk size. *)
Definition in_one_piece : ChunkBuilder.SplitterLib := λ _ text, [text].

Definition default_chunker : ChunkBuilder.t :=
  ChunkBuilder.__init__ "bert-base-uncased" 500.

(** A directory with a text file and a presentation. *)
Definition notes_txt : Document := mkDocument "notes.txt" ".txt" (Txt report_txt).

Definition slides_odp : Document := mkDocument "slides.odp" ".odp" OtherContent.

Definition mixed_world : World :=
  mkWorld {[ "u1" := [notes_txt; slides_odp] ]} ∅ ∅ ∅ [].

Definition notes_world : World := mkWorld {[ "u1" := [notes_txt] ]} ∅ ∅ ∅ [].

(** The state after the ingestion of a user without documents. *)
Definition zero_docs_world : World := Ingestor.save_chunks empty_world "u1" [].

(** Two users, one chunk each: both runs of the ingestor numbered from 0. *)
Definition alice_chunk : Chunk :=
  mkChunk "a.txt" 0 "the private notes of alice" "text" 0 "alice".

Definition bob_chunk : Chunk :=
  mkChunk "b.txt" 0 "the own document of bob" "text" 0 "bob".

Definition two_users_world : World :=
  mkWorld ∅ {[ "alice" := [alice_chunk]; "bob" := [bob_chunk] ]} ∅ ∅ [].


(** The indexer run for alice, then for bob. *)
Definition index_both (policy : AddPolicy) : result World :=
  let? w := Indexer.run policy "alice" two_users_world in
  Indexer.run policy "bob" w.

(** An index that answers with the first [k] labels, and raises when it
    holds fewer than [k] vectors. *)
Definition first_labels : Searcher.KnnLib := λ items _ k,
  if Z.of_nat (length items) <? k
  then Raise (RuntimeError "Cannot return the results in a contiguous 2D array")
  else Ok (seq 0 (Z.to_nat k)).

(** ** Notions used to state properties of the chunk builder *)

Module ChunkBuilderSpec.

(** The text under which the duplicate pass compares a block. *)
Definition dedup_key (b : Block) : string :=
  PyStr.lower (PyStr.strip (PyStr.collapse_ws (blk_text b))).

(** No block of [l] has the key of one of the blocks that the window shows
    in front of it. *)
Definition window_fresh (windows : Z) (l : list Block) : Prop :=
  ∀ p b s, l = p ++ b :: s →
    dedup_key b ∉ ChunkBuilder.last_window windows (dedup_key <$> p).

(** All the words of the texts of a list of blocks, in order. *)
Definition words_of (l : list Block) : list string :=
  concat ((λ b, PyStr.split (blk_text b)) <$> l).

(** A block under [min_words] is last or followed by a block of another
    page. *)
Fixpoint small_then_page_change (min_words : Z) (l : list Block) : Prop :=
  match l with
  | x :: (y :: _) as r =>
      (ChunkBuilder.word_count x < min_words → get_page x ≠ get_page y)
      ∧ small_then_page_change min_words r
  | _ => True
  end.

End ChunkBuilderSpec.

(** ** modules/model_server.py *)

Module ModelServer.

(** An item of the request queue: a pair [(job_id, page_png_bytes)], or the
    [None] that asks the server to stop. *)
Definition Request : Type := option (string * string).

(** What the server did on a request queue to which nobody writes any more:
    the response queue it leaves, the requests it did not take, and whether
    it left its loop ([false]: it waits in [get] on the empty queue). *)
Record Served : Type := mkServed {
  responses : list PageJob.Response;
  not_taken : list Request;
  stopped : bool
}.

(** The loop of [model_server]; [predict] is the layout model with the text
    that the OCR pass reads in each of its boxes. *)
Fixpoint model_server (predict : string → list PageJob.Detection)
  (server_req_q : list Request) (server_resp_q : list PageJob.Response)
  : Served :=
  match server_req_q with
  | [] => mkServed server_resp_q [] false
  | None :: rest => mkServed server_resp_q rest true
  | Some (job_id, page_png_bytes) :: rest =>
      model_server predict rest
        (server_resp_q ++ [Some (job_id, predict page_png_bytes)])
  end.

(** The response to one request. *)
Definition answer (predict : string → list PageJob.Detection)
  (job : string * string) : PageJob.Response :=
  Some (job.1, predict job.2).

End ModelServer.

(** ** modules/reranker.py and the search stage of main.py *)

Module Reranker.

(** A document with the key [rerank_score] that [rerank] adds to it.  The
    score is a finite number. *)
Record Reranked : Type := mkReranked {
  rr_doc : Searcher.Match;
  rerank_score : Q
}.

(** The library's cross encoder: the score it predicts for a pair of a query
    and a text. *)
Definition CrossEncoder : Type := string → string → Q.

(** [sorted(docs, key=lambda x: x["rerank_score"], reverse=True)]: a stable
    sort, so documents of equal score stay in their order. *)
Fixpoint insert_desc (d : Reranked) (l : list Reranked) : list Reranked :=
  match l with
  | [] => [d]
  | x :: r =>
      if Qle_bool (rerank_score d) (rerank_score x)
      then x :: insert_desc d r
      else d :: x :: r
  end.

Definition sorted_desc (l : list Reranked) : list Reranked :=
  foldl (λ acc d, insert_desc d acc) [] l.

(** [l[:top_k]]: the first [top_k] elements, or all but the last [-top_k]
    when [top_k] is negative. *)
Definition slice_to {A : Type} (top_k : Z) (l : list A) : list A :=
  if top_k <? 0 then take (length l - Z.to_nat (- top_k))%nat l
  else take (Z.to_nat top_k) l.

Definition score_docs (model : CrossEncoder) (query : string)
  (docs : list Searcher.Match) : list Reranked :=
  (λ d, mkReranked d (model query (Searcher.m_text d))) <$> docs.

Definition rerank (model : CrossEncoder) (query : string)
  (docs : list Searcher.Match) (top_k : Z) : list Reranked :=
  match docs with
  | [] => []
  | _ => slice_to top_k (sorted_desc (score_docs model query docs))
  end.


End Reranker.

(** * Properties *)

Module SanitizerProps.
Import BlockProcessor SanitizerSpec.

(** *** Sorting and the extremes of a list *)

Lemma minimum_spec (l : list Z) (m : Z) :
  minimum l = Some m ↔ m ∈ l ∧ Forall (λ x, m <= x) l.
Proof.
  revert m. induction l as [|x r IH]; intros m; simpl.
  - split; [done | intros [H _]; by apply elem_of_nil in H].
  - destruct (minimum r) as [m'|] eqn:E; simpl.
    + destruct (proj1 (IH m') eq_refl) as [Hin Hall].
      split.
      * intros [= <-]. split.
        -- destruct (Z.min_spec x m') as [[_ ->]|[_ ->]];
             rewrite elem_of_cons; auto.
        -- constructor; [lia|].
           eapply Forall_impl; [exact Hall|]. simpl. intros; lia.
      * intros [Hm Hle]. f_equal.
        apply Forall_cons in Hle as [Hx Hr].
        apply elem_of_cons in Hm as [->|Hm].
        -- rewrite Forall_forall in Hr. specialize (Hr _ Hin). lia.
        -- rewrite Forall_forall in Hall, Hr.
           specialize (Hall _ Hm). specialize (Hr _ Hin). lia.
    + assert (r = []) as -> by (by destruct r).
      split.
      * intros [= <-]. split; [apply list_elem_of_here|].
        constructor; [lia|constructor].
      * intros [Hm _]. apply list_elem_of_singleton in Hm. by subst.
Qed.

Lemma maximum_spec (l : list Z) (m : Z) :
  maximum l = Some m ↔ m ∈ l ∧ Forall (λ x, x <= m) l.
Proof.
  revert m. induction l as [|x r IH]; intros m; simpl.
  - split; [done | intros [H _]; by apply elem_of_nil in H].
  - destruct (maximum r) as [m'|] eqn:E; simpl.
    + destruct (proj1 (IH m') eq_refl) as [Hin Hall].
      split.
      * intros [= <-]. split.
        -- destruct (Z.max_spec x m') as [[_ ->]|[_ ->]];
             rewrite elem_of_cons; auto.
        -- constructor; [lia|].
           eapply Forall_impl; [exact Hall|]. simpl. intros; lia.
      * intros [Hm Hle]. f_equal.
        apply Forall_cons in Hle as [Hx Hr].
        apply elem_of_cons in Hm as [->|Hm].
        -- rewrite Forall_forall in Hr. specialize (Hr _ Hin). lia.
        -- rewrite Forall_forall in Hall, Hr.
           specialize (Hall _ Hm). specialize (Hr _ Hin). lia.
    + assert (r = []) as -> by (by destruct r).
      split.
      * intros [= <-]. split; [apply list_elem_of_here|].
        constructor; [lia|constructor].
      * intros [Hm _]. apply list_elem_of_singleton in Hm. by subst.
Qed.

Lemma head_sorted_least (s : list Z) (h : Z) :
  StronglySorted Z.le s → head s = Some h → h ∈ s ∧ Forall (λ x, h <= x) s.
Proof.
  intros Hs Hh. destruct s as [|x r]; simplify_eq/=.
  apply StronglySorted_inv in Hs as [_ Hall].
  split; [apply list_elem_of_here|]. constructor; [lia|done].
Qed.

Lemma last_sorted_greatest (s : list Z) (h : Z) :
  StronglySorted Z.le s → last s = Some h → h ∈ s ∧ Forall (λ x, x <= h) s.
Proof.
  induction s as [|x r IH]; intros Hs Hh; [done|].
  apply StronglySorted_inv in Hs as [Hr Hall].
  destruct r as [|y r'].
  - simplify_eq/=. split; [apply list_elem_of_here|].
    constructor; [lia|constructor].
  - rewrite last_cons_cons in Hh. destruct (IH Hr Hh) as [Hin Hle].
    split; [by apply list_elem_of_further|]. constructor; [|done].
    rewrite Forall_forall in Hall. apply Hall, Hin.
Qed.

Lemma head_merge_sort (l : list Z) : head (merge_sort Z.le l) = minimum l.
Proof.
  pose proof (StronglySorted_merge_sort Z.le l) as Hs.
  pose proof (merge_sort_Permutation Z.le l) as Hp.
  destruct (head (merge_sort Z.le l)) as [h|] eqn:E.
  - symmetry. apply minimum_spec.
    destruct (head_sorted_least _ _ Hs E) as [Hin Hall].
    by rewrite <- Hp.
  - apply head_None in E. rewrite E in Hp.
    apply Permutation_nil_l in Hp. by subst.
Qed.

Lemma last_merge_sort (l : list Z) : last (merge_sort Z.le l) = maximum l.
Proof.
  pose proof (StronglySorted_merge_sort Z.le l) as Hs.
  pose proof (merge_sort_Permutation Z.le l) as Hp.
  destruct (last (merge_sort Z.le l)) as [h|] eqn:E.
  - symmetry. apply maximum_spec.
    destruct (last_sorted_greatest _ _ Hs E) as [Hin Hall].
    by rewrite <- Hp.
  - apply last_None in E. rewrite E in Hp.
    apply Permutation_nil_l in Hp. by subst.
Qed.

Lemma size_list_to_set_dups (l : list Z) :
  size (list_to_set l : gset Z) = length (remove_dups l).
Proof.
  rewrite <- (size_list_to_set (C:=gset Z) (remove_dups l))
    by apply NoDup_remove_dups.
  f_equal. apply set_eq. intros x.
  by rewrite !elem_of_list_to_set, elem_of_remove_dups.
Qed.

Lemma filter_all {A} (P : A → Prop) `{!∀ x, Decision (P x)} (l : list A) :
  (∀ x, x ∈ l → P x) → filter P l = l.
Proof.
  induction l as [|x r IH]; intros Hall; [done|].
  rewrite filter_cons_True by (apply Hall, list_elem_of_here).
  f_equal. apply IH. intros y Hy. by apply Hall, list_elem_of_further.
Qed.

Lemma filter_iff_elem {A} (P Q : A → Prop)
  `{!∀ x, Decision (P x), !∀ x, Decision (Q x)} (l : list A) :
  (∀ x, x ∈ l → P x ↔ Q x) → filter P l = filter Q l.
Proof.
  induction l as [|x r IH]; intros Hall; [done|].
  rewrite !filter_cons.
  rewrite IH by (intros y Hy; by apply Hall, list_elem_of_further).
  pose proof (Hall x (list_elem_of_here _ _)) as Hx.
  destruct (decide (P x)), (decide (Q x)); tauto.
Qed.

Section rule.
Variables (min_repeat y_tolerance max_header_words max_header_chars : Z).

#[local] Abbreviation skipped := (skipped max_header_words max_header_chars).
#[local] Abbreviation collect_step := (collect_step max_header_words max_header_chars).
#[local] Abbreviation collect := (collect max_header_words max_header_chars).
#[local] Abbreviation repeated := (repeated min_repeat y_tolerance).
#[local] Abbreviation texts_to_drop := (texts_to_drop min_repeat y_tolerance).
#[local] Abbreviation candidate :=
  (candidate min_repeat y_tolerance max_header_words max_header_chars).
#[local] Abbreviation remove_page_headers_footers :=
  (remove_page_headers_footers min_repeat y_tolerance max_header_words
     max_header_chars).

(** *** The third loop is a filter *)

Lemma scan_cleaned (drop : gset string) (bs : list Block) (st : Scan) :
  cleaned (foldl (scan_step drop) st bs) = cleaned st ++ filter (kept drop) bs.
Proof.
  revert st. induction bs as [|b bs IH]; intros st; simpl.
  - by rewrite app_nil_r.
  - rewrite IH, filter_cons. unfold scan_step, kept.
    set (st1 := if bool_decide (current_page st = Some (get_page b)) then st
                else mkScan (cleaned st) (Some (get_page b)) false).
    assert (cleaned st1 = cleaned st) as Hst1
      by (subst st1; by case_bool_decide).
    destruct (decide _) as [[Hty Htx]|Hno].
    + rewrite (bool_decide_eq_false_2 _ Hty), (bool_decide_eq_false_2 _ Htx).
      simpl. by rewrite Hst1, <- app_assoc.
    + case_bool_decide as Hh.
      * destruct (seen_header_this_page st1); simpl; by rewrite Hst1.
      * case_bool_decide as Hd; [by rewrite Hst1|]. by destruct Hno.
Qed.

Lemma sanitizer_is_filter (bs : list Block) :
  remove_page_headers_footers bs = filter (kept (texts_to_drop (collect bs))) bs.
Proof. unfold BlockProcessor.remove_page_headers_footers. by rewrite scan_cleaned. Qed.

(** *** The first loop, read per normalized text *)

Lemma collect_lookup_skipped (t : string) (bs : list Block)
  (st : gmap string Info) :
  skipped t = true → foldl collect_step st bs !! t = st !! t.
Proof.
  intros Hsk. revert st. induction bs as [|b bs IH]; intros st; [done|].
  simpl. rewrite IH. unfold BlockProcessor.collect_step.
  destruct (skipped (_norm_text (blk_text b))) eqn:E; [done|].
  apply lookup_insert_ne. congruence.
Qed.

Lemma collect_lookup (t : string) (bs : list Block) (st : gmap string Info) :
  skipped t = false →
  foldl collect_step st bs !! t = info_after (st !! t) (occurrences t bs).
Proof.
  intros Hsk. revert st. induction bs as [|b bs IH]; intros st; [done|].
  simpl. rewrite IH. unfold occurrences. rewrite filter_cons.
  unfold BlockProcessor.collect_step.
  destruct (decide (_norm_text (blk_text b) = t)) as [->|Hne].
  - rewrite Hsk, lookup_insert_eq. fold (occurrences t bs).
    destruct (occurrences t bs) as [|b' o]; simpl; [|].
    + by rewrite union_empty_r_L.
    + by rewrite <- (assoc_L (∪)), <- app_assoc.
  - destruct (skipped (_norm_text (blk_text b))); [done|].
    by rewrite lookup_insert_ne.
Qed.

Lemma collect_lookup_empty (t : string) (bs : list Block) :
  collect bs !! t =
  if skipped t then None
  else match occurrences t bs with
       | [] => None
       | o => Some (mkInfo (list_to_set (get_page <$> o)) (get_y <$> o))
       end.
Proof.
  unfold BlockProcessor.collect. destruct (skipped t) eqn:E.
  - by rewrite collect_lookup_skipped.
  - rewrite collect_lookup by done. rewrite lookup_empty.
    destruct (occurrences t bs); simpl; [done|].
    f_equal. f_equal. by rewrite union_empty_l_L.
Qed.

(** *** The second loop agrees with the rule of the specification *)

Lemma skipped_within (t : string) :
  skipped t = negb (within_ceiling max_header_words max_header_chars t).
Proof.
  unfold BlockProcessor.skipped, within_ceiling.
  rewrite !negb_andb, negb_involutive, <- !Z.ltb_antisym. done.
Qed.

Lemma repeated_spec (lp ly : list Z) :
  repeated (mkInfo (list_to_set lp) ly) =
  (min_repeat <=? Z.of_nat (length (remove_dups lp)))
  && match hi ← maximum ly; lo ← minimum ly; Some (hi - lo) with
     | Some d => d <=? y_tolerance
     | None => false
     end.
Proof.
  unfold BlockProcessor.repeated, spread_within. simpl.
  rewrite size_list_to_set_dups, head_merge_sort, last_merge_sort.
  rewrite <- Z.leb_antisym. f_equal.
  by destruct (minimum ly), (maximum ly).
Qed.

Lemma candidate_unfold (bs : list Block) (t : string) :
  candidate bs t =
  negb (skipped t)
  && repeated (mkInfo (list_to_set (get_page <$> occurrences t bs))
                      (get_y <$> occurrences t bs)).
Proof.
  unfold SanitizerSpec.candidate, distinct_pages, spread.
  by rewrite repeated_spec, skipped_within, negb_involutive, andb_assoc.
Qed.

Lemma candidate_occurs (bs : list Block) (t : string) :
  candidate bs t = true → occurrences t bs ≠ [].
Proof.
  unfold SanitizerSpec.candidate, spread. intros H Ho. rewrite Ho in H.
  simpl in H. by rewrite andb_false_r in H.
Qed.

Lemma drop_iff_candidate (bs : list Block) (t : string) :
  t ∈ texts_to_drop (collect bs) ↔ candidate bs t = true.
Proof.
  unfold BlockProcessor.texts_to_drop. rewrite elem_of_dom. split.
  - intros [info Hinfo]. apply map_lookup_filter_Some in Hinfo as [Hl Hrep].
    simpl in Hrep. rewrite collect_lookup_empty in Hl.
    rewrite candidate_unfold.
    destruct (skipped t); [done|].
    destruct (occurrences t bs) as [|b o]; [done|].
    cbv zeta in Hl. by simplify_eq.
  - intros Hc. pose proof (candidate_occurs _ _ Hc) as Ho.
    rewrite candidate_unfold in Hc. apply andb_true_iff in Hc as [Hsk Hrep].
    apply negb_true_iff in Hsk.
    eexists. apply map_lookup_filter_Some. split; [|exact Hrep].
    rewrite collect_lookup_empty, Hsk.
    by destruct (occurrences t bs).
Qed.

(** The sanitizer as one filter over the rule of the specification. *)
Lemma sanitizer_characterised (bs : list Block) :
  remove_page_headers_footers bs =
  filter (λ b, get_type_lower b ≠ "page-header"
               ∧ candidate bs (_norm_text (blk_text b)) = false) bs.
Proof.
  rewrite sanitizer_is_filter. apply list_filter_iff. intros b. unfold kept.
  rewrite drop_iff_candidate. destruct (candidate bs _); intuition congruence.
Qed.

Lemma sanitizer_In (bs : list Block) (b : Block) :
  In b (remove_page_headers_footers bs) ↔
  In b bs ∧ get_type_lower b ≠ "page-header"
  ∧ candidate bs (_norm_text (blk_text b)) = false.
Proof.
  rewrite sanitizer_characterised, <- !list_elem_of_In, list_elem_of_filter.
  tauto.
Qed.

(** Blocks that the sanitizer keeps together with every occurrence of their
    text see the same rule before and after. *)
Lemma occurrences_kept (bs : list Block) (t : string) :
  (∀ b', b' ∈ occurrences t bs →
         kept (texts_to_drop (collect bs)) b') →
  occurrences t (remove_page_headers_footers bs) = occurrences t bs.
Proof.
  intros Hall. rewrite sanitizer_is_filter. unfold occurrences in *.
  rewrite list_filter_filter. apply filter_iff_elem. intros b Hb.
  split; [tauto|]. intros Ht. split; [done|].
  apply Hall, list_elem_of_filter. done.
Qed.

Lemma candidate_occurrences (bs bs' : list Block) (t : string) :
  occurrences t bs' = occurrences t bs → candidate bs' t = candidate bs t.
Proof.
  intros Ho. unfold SanitizerSpec.candidate, distinct_pages, spread.
  by rewrite Ho.
Qed.

(** On a block list in which no tagged page header shares its normalized
    text with a block that the sanitizer keeps, a second run changes
    nothing. *)
Lemma second_run_keeps (bs : list Block) :
  (∀ h b, In h bs → get_type_lower h = "page-header" →
          In b (remove_page_headers_footers bs) →
          _norm_text (blk_text b) ≠ _norm_text (blk_text h)) →
  remove_page_headers_footers (remove_page_headers_footers bs) =
  remove_page_headers_footers bs.
Proof.
  intros Hsep.
  rewrite (sanitizer_is_filter (remove_page_headers_footers bs)).
  apply filter_all. intros b Hb.
  assert (In b (remove_page_headers_footers bs)) as HbIn
    by by apply list_elem_of_In.
  rewrite sanitizer_is_filter in Hb.
  apply list_elem_of_filter in Hb as [[Hty Hnd] Hbs].
  split; [done|]. rewrite drop_iff_candidate.
  rewrite (candidate_occurrences bs).
  - by rewrite <- drop_iff_candidate.
  - apply occurrences_kept. intros b' Hb'.
    apply list_elem_of_filter in Hb' as [Ht Hb'].
    split; [|by rewrite Ht].
    intros Hh. apply (Hsep b' b); [by apply list_elem_of_In|done..].
Qed.

End rule.

(** ** The claims on the sanitizer *)

(** C2, evaluated on the code.  The claim says that a block tagged
    [page-footer] is never in the output.  On a list that holds one such
    block, the sanitizer returns the list unchanged: the branch for that tag
    logs the drop and then falls through. *)
Theorem page_footer_block_is_kept : sanitize footer_only = footer_only.
Proof. vm_compute. reflexivity. Qed.

(** A tagged page footer leaves the output only through the rule on repeated
    texts. *)
Lemma page_footer_kept_unless_repeated (bs : list Block) (b : Block) :
  In b bs → get_type_lower b = "page-footer" →
  candidate 3 20 12 80 bs (_norm_text (blk_text b)) = false →
  In b (sanitize bs).
Proof.
  intros Hb Hty Hc. apply sanitizer_In. split; [done|]. split; [|done].
  by rewrite Hty.
Qed.

(** C7, as the code has it.  With the default parameters, and leaving aside
    the blocks tagged [page-footer], the sanitizer drops exactly the blocks
    tagged [page-header] and the blocks whose normalized text is a candidate:
    not empty, within the length ceiling, on at least 3 distinct pages, with
    at most 20 between the least and the greatest vertical position. *)
Theorem repeated_text_dropped_exactly (bs : list Block) (b : Block) :
  In b bs →
  get_type_lower b ≠ "page-footer" →
  (¬ In b (sanitize bs) ↔
   get_type_lower b = "page-header"
   ∨ candidate 3 20 12 80 bs (_norm_text (blk_text b)) = true).
Proof.
  intros Hb _. unfold sanitize. rewrite sanitizer_In.
  destruct (candidate 3 20 12 80 bs _).
  - split; [by right|]. by intros _ (_ & _ & ?).
  - split.
    + intros Hno. left. destruct (decide (get_type_lower b = "page-header"));
        [done|]. destruct Hno. auto.
    + intros [Hh|?] (_ & Hnh & _); done.
Qed.

(** The three blocks of the scenario are all dropped. *)
Lemma repeated_text_dropped_exactly_witness :
  Forall (λ b, ¬ In b (sanitize conf_blocks)) conf_blocks.
Proof.
  repeat apply Forall_cons_2; [ .. | apply Forall_nil_2 ].
  all: match goal with
       | |- ¬ In ?b _ =>
           apply (proj2 (repeated_text_dropped_exactly conf_blocks b
                           ltac:(simpl; tauto) ltac:(by vm_compute)))
       end.
  all: right; by vm_compute.
Defined.

(** C7 as stated fails: a block tagged [page-header] is dropped although its
    text is on one page only. *)
Lemma tagged_header_dropped_without_repeat :
  In chapter_header header_only
  ∧ get_type_lower chapter_header = "page-header"
  ∧ ¬ In chapter_header (sanitize header_only)
  ∧ candidate 3 20 12 80 header_only (_norm_text (blk_text chapter_header))
    = false.
Proof.
  split; [by left|]. split; [by vm_compute|]. split; [|by vm_compute].
  assert (sanitize header_only = []) as -> by by vm_compute.
  intros [].
Qed.

(** C9, as the code has it.  For all parameters, the sanitizer run on its own
    output returns that output, provided no block tagged [page-header] has the
    normalized text of a block that the first run keeps. *)
Theorem sanitizer_idempotent_apart_from_headers
  (min_repeat y_tolerance max_header_words max_header_chars : Z)
  (bs : list Block) :
  let run := remove_page_headers_footers min_repeat y_tolerance
               max_header_words max_header_chars in
  (∀ h b, In h bs → get_type_lower h = "page-header" → In b (run bs) →
          _norm_text (blk_text b) ≠ _norm_text (blk_text h)) →
  run (run bs) = run bs.
Proof. intros run Hsep. by apply second_run_keeps. Qed.

Lemma sanitizer_idempotent_apart_from_headers_witness :
  sanitize (sanitize own_header_blocks) = sanitize own_header_blocks.
Proof.
  apply (sanitizer_idempotent_apart_from_headers 3 20 12 80 own_header_blocks).
  intros h b Hh Hty Hb.
  assert (h = text_block "page-header" "Annual Review" 0 10) as ->.
  { simpl in Hh. destruct Hh as [<-|[<-|[<-|[]]]].
    - reflexivity.
    - vm_compute in Hty. discriminate Hty.
    - vm_compute in Hty. discriminate Hty. }
  change (In b (sanitize own_header_blocks)) in Hb.
  assert (sanitize own_header_blocks =
          [ text_block "text" "The body of the first page." 0 200;
            text_block "text" "The body of the second page." 1 200 ]) as E
    by (vm_compute; reflexivity).
  rewrite E in Hb. simpl in Hb.
  destruct Hb as [<-|[<-|[]]]; vm_compute; discriminate.
Defined.

(** C9 as stated fails.  The first run drops the tagged header, which was the
    one occurrence far from the others; the second run then finds the same
    line on three pages at one height and drops the three blocks the first
    run kept. *)
Lemma second_run_drops_more :
  sanitize (sanitize shared_header_blocks) ≠ sanitize shared_header_blocks.
Proof. vm_compute. discriminate. Qed.

End SanitizerProps.

(** ** The chunk builder *)

Module ChunkBuilderProps.
Import ChunkBuilder.

#[local] Arguments merge_step : simpl never.

Lemma merge_step_prefix (mw : Z) (merged : list Block) (buf : option Block)
  (b : Block) :
  merge_step mw (merged, buf) b =
  (merged ++ (merge_step mw ([], buf) b).1, (merge_step mw ([], buf) b).2).
Proof.
  unfold merge_step.
  destruct (word_count b <? mw), buf as [buf|];
    repeat case_bool_decide; simpl; by rewrite ?app_nil_r.
Qed.

(** What was emitted before a point of the walk stays in front of what is
    emitted after it. *)
Lemma merge_from_prefix (mw : Z) (bs : list Block) (merged : list Block)
  (buf : option Block) :
  merge_from mw (merged, buf) bs = merged ++ merge_from mw ([], buf) bs.
Proof.
  revert merged buf. induction bs as [|b bs IH]; intros merged buf.
  - unfold merge_from, flush. simpl. destruct buf; by rewrite ?app_nil_r.
  - unfold merge_from in *. simpl. rewrite merge_step_prefix.
    destruct (merge_step mw ([], buf) b) as [e buf'] eqn:E. simpl.
    rewrite IH, (IH e). by rewrite app_assoc.
Qed.

Lemma merge_from_cons (mw : Z) (st : list Block * option Block) (b : Block)
  (rest : list Block) :
  merge_from mw st (b :: rest) = merge_from mw (merge_step mw st b) rest.
Proof. done. Qed.

(** C6, as the code has it.  A block under [min_words] that meets no buffer
    becomes the buffer.  A buffered block and the next block are merged
    exactly when they are on the same page: an under-sized next block extends
    the buffer, a full-size next block is appended to the buffer and the
    merged block is emitted at once.  On a page change the buffer is emitted
    as its own block and the next block is handled as if no buffer were there
    (so a full-size block is emitted on its own). *)
Theorem buffer_merges_by_page (min_words : Z) (buf b : Block)
  (rest : list Block) :
  merge_small_blocks (b :: rest) min_words =
    (if word_count b <? min_words
     then merge_from min_words ([], Some b) rest
     else b :: merge_small_blocks rest min_words)
  ∧ merge_from min_words ([], Some buf) (b :: rest) =
    (if bool_decide (get_page buf = get_page b)
     then if word_count b <? min_words
          then merge_from min_words ([], Some (append_text buf b)) rest
          else append_text buf b :: merge_small_blocks rest min_words
     else buf :: merge_small_blocks (b :: rest) min_words).
Proof.
  unfold merge_small_blocks. rewrite !merge_from_cons. split.
  - unfold merge_step. destruct (word_count b <? min_words); [done|].
    simpl. by rewrite (merge_from_prefix _ _ [b]).
  - unfold merge_step. case_bool_decide.
    + destruct (word_count b <? min_words); [done|].
      simpl. by rewrite (merge_from_prefix _ _ [_]).
    + destruct (word_count b <? min_words); simpl.
      * by rewrite (merge_from_prefix _ _ [buf]).
      * by rewrite (merge_from_prefix _ _ [b]),
                   (merge_from_prefix _ _ [buf; b]).
Qed.

(** C6 as stated fails: a full-size block that follows a buffered block on
    the same page is merged into it, and one block comes out. *)
Lemma full_size_block_merged_on_same_page :
  word_count intro_block < 20
  ∧ 20 <= word_count body_block
  ∧ get_page intro_block = get_page body_block
  ∧ merge_small_blocks [intro_block; body_block] 20
    = [append_text intro_block body_block]
  ∧ merge_small_blocks [intro_block; body_block] 20
    ≠ [intro_block; body_block].
Proof. vm_compute. repeat split; discriminate. Qed.

(** On a page change the two blocks do come out one after the other. *)
Lemma full_size_block_apart_on_page_change :
  merge_small_blocks [intro_block; body_block_next_page] 20
  = [intro_block; body_block_next_page].
Proof. vm_compute. reflexivity. Qed.

(** C8, evaluated on the code.  The claim says that the size bound follows
    the configured chunk size.  A builder made for a chunk size of 100 holds
    a splitter for 500 with an overlap of 50, and splits every text as a
    builder made for any other chunk size does. *)
Theorem configured_chunk_size_not_used :
  chunk_size (splitter (__init__ "bert-base-uncased" 100)) = 500
  ∧ chunk_overlap (splitter (__init__ "bert-base-uncased" 100)) = 50
  ∧ ∀ (lib : SplitterLib) (tokenizer_model text : string) (c1 c2 : Z),
      split_text lib (__init__ tokenizer_model c1) text
      = split_text lib (__init__ tokenizer_model c2) text.
Proof. repeat split. Qed.

(** The library leaves a text of 300 letters without any separator in one
    piece when it splits for 500.  A builder configured for 100 then emits
    that piece, which is longer than 100 plus the overlap. *)
Lemma chunk_longer_than_configured (lib : SplitterLib) :
  let text := PyStr.repeat_char "a" 300 in
  lib (splitter (__init__ "bert-base-uncased" 500)) text = [text] →
  ∃ part, In part (split_text lib (__init__ "bert-base-uncased" 100) text)
          ∧ 100 + 50 < PyStr.len part.
Proof.
  intros text Hlib. exists text. split.
  - unfold split_text. change (splitter _) with
      (splitter (__init__ "bert-base-uncased" 500)).
    rewrite Hlib. by left.
  - by vm_compute.
Qed.

End ChunkBuilderProps.

(** ** The layout extractor and the page job *)

Module ExtractorProps.
Import LayoutExtractor PageJob.

(** Every block of a DOCX file is on page 0 at height 0. *)
Lemma docx_blocks_at_origin (paragraphs : list Paragraph) (b : Block) :
  In b (_extract_docx paragraphs) → blk_page b = Some 0 ∧ blk_y b = Some 0.
Proof.
  unfold _extract_docx. rewrite <- list_elem_of_In, list_elem_of_omap.
  intros (p & _ & Hp). case_bool_decide; by simplify_eq.
Qed.

(** C10, evaluated on the code.  The claim says that [y] is the index of the
    paragraph among the emitted blocks.  For a file with a heading and two
    paragraphs that are not blank the types and the page are as claimed, and
    [y] is 0 in all three blocks. *)
Theorem docx_y_is_not_the_index :
  _extract_docx report_paragraphs =
  [ text_block "title" "Overview" 0 0;
    text_block "text" "First paragraph." 0 0;
    text_block "text" "Second paragraph." 0 0 ].
Proof. vm_compute. reflexivity. Qed.

(** The plain text path does number its paragraphs. *)
Lemma txt_y_is_the_index :
  _extract_txt report_txt =
  [ text_block "text" "Overview" 0 0;
    text_block "text" "First paragraph." 0 1;
    text_block "text" "Second paragraph." 0 2 ].
Proof. vm_compute. reflexivity. Qed.

(** C5, evaluated on the code.  The claim says that the wait ends in
    [TimeoutError].  With no response on the queue, whatever was put on the
    request queue, the page job ends with the [queue.Empty] that [get]
    raises, which is another exception. *)
Theorem page_job_timeout_is_queue_empty :
  (∀ (fuel : nat) (job_id : string) (page_number : Z) (req_q : list string),
     page_job (S fuel) job_id page_number (Some req_q) (Some [])
     = Some (Raise QueueEmpty))
  ∧ QueueEmpty ≠ TimeoutError.
Proof. split; [done | discriminate]. Qed.

(** With a response of another job on the queue and nobody to take it, the
    loop takes it and puts it back for ever: no [get] ever times out. *)
Lemma wait_spins_on_stray_response (fuel : nat) :
  wait_response fuel "job-of-this-page" [stray_response]
  = Running [stray_response].
Proof. induction fuel as [|fuel IH]; [done|]. simpl. exact IH. Qed.

Lemma page_job_never_returns_on_stray_response (fuel : nat) :
  page_job fuel "job-of-this-page" 0 (Some []) (Some [stray_response]) = None.
Proof. unfold page_job. by rewrite wait_spins_on_stray_response. Qed.

End ExtractorProps.

(** ** The ingestor *)

Module IngestorProps.
Import Ingestor.

Lemma starmap_raises {A B} (f : A → result B) (tasks : list A) (x : A) (e : exn) :
  In x tasks → f x = Raise e → ∃ e', starmap f tasks = Raise e'.
Proof.
  induction tasks as [|y rest IH]; intros Hx Hf; [done|]. simpl.
  destruct (f y) as [b|e0] eqn:Ey; [|by eexists].
  destruct Hx as [->|Hx]; [congruence|].
  destruct (IH Hx Hf) as [e' ->]. by eexists.
Qed.

(** A file whose suffix is none of the three supported ones raises in both
    modes. *)
Lemma unsupported_extension_raises (doc : Document) :
  let ext := PyStr.lower (doc_suffix doc) in
  ext ≠ ".pdf" → ext ≠ ".docx" → ext ≠ ".txt" →
  LayoutExtractor.extract doc = Raise (ValueError ("Unsupported file type: " +:+ ext))
  ∧ DocumentLoader.load doc = Raise (ValueError ("Unsupported file type: " +:+ ext)).
Proof.
  intros ext H1 H2 H3. unfold LayoutExtractor.extract, DocumentLoader.load.
  fold ext. by rewrite !bool_decide_eq_false_2.
Qed.

Lemma extract_all_raises (mode : Mode) (user_id : string)
  (docs : list Document) (doc : Document) :
  In doc docs → extraction_fails mode doc →
  ∃ e, extract_all mode user_id docs = Raise e.
Proof.
  intros Hin Hfail. destruct mode; simpl in *; destruct Hfail as [e He].
  - destruct (starmap_raises (λ d, process_document_task d user_id) docs doc e)
      as [e' ->]; [done| |by eexists].
    unfold process_document_task. by rewrite He.
  - eapply starmap_raises; [done|]. simpl. by rewrite He.
Qed.

Lemma run_raises (lib : ChunkBuilder.SplitterLib)
  (chunker : ChunkBuilder.t) (mode : Mode) (user_id : string) (w : World)
  (doc : Document) :
  In doc (load_documents w user_id) →
  extraction_fails mode doc →
  ∃ e, run lib chunker mode user_id w = Raise e.
Proof.
  intros Hin Hfail. unfold run, process_blocks.
  destruct (extract_all_raises mode user_id _ doc Hin Hfail) as [e ->].
  by eexists.
Qed.

(** C4, as the code has it.  When the extraction of one document of the user
    raises (as it does for an unsupported extension), the run raises as well:
    it ends before any chunk is built and leaves no new state, so nothing is
    persisted. *)
Theorem failed_document_aborts_run (lib : ChunkBuilder.SplitterLib)
  (chunker : ChunkBuilder.t) (mode : Mode) (user_id : string) (w : World)
  (doc : Document) :
  In doc (load_documents w user_id) →
  extraction_fails mode doc →
  ∃ e, run lib chunker mode user_id w = Raise e.
Proof. apply run_raises. Qed.

Lemma failed_document_aborts_run_witness :
  ∃ e, run in_one_piece default_chunker Layout "u1" mixed_world = Raise e.
Proof.
  apply (failed_document_aborts_run in_one_piece default_chunker Layout "u1"
           mixed_world slides_odp).
  - vm_compute. tauto.
  - simpl. eexists. vm_compute. reflexivity.
Defined.

(** C4 as stated fails: with a text file and a presentation in the directory
    the run ends with the exception of the presentation, and the chunks of the
    text file are not saved. *)
Lemma unsupported_file_aborts_ingestion :
  run in_one_piece default_chunker Layout "u1" mixed_world
  = Raise (ValueError "Unsupported file type: .odp").
Proof. vm_compute. reflexivity. Qed.

(** When a run does not raise, every document was extracted. *)
Lemma run_ok_all_extracted (lib : ChunkBuilder.SplitterLib)
  (chunker : ChunkBuilder.t) (mode : Mode) (user_id : string) (w w' : World)
  (doc : Document) :
  run lib chunker mode user_id w = Ok w' →
  In doc (load_documents w user_id) → ¬ extraction_fails mode doc.
Proof.
  intros Hrun Hin Hfail.
  destruct (run_raises lib chunker mode user_id w doc Hin Hfail) as [e He].
  congruence.
Qed.

(** With the text file alone the run saves one chunk, numbered 0, that holds
    the three short paragraphs of the file. *)
Lemma text_file_alone_is_ingested :
  ∃ w', run in_one_piece default_chunker Layout "u1" notes_world = Ok w'
        ∧ chunk_files w' !! "u1"
          = Some [ mkChunk "notes.txt" 0
                     "Overview First paragraph. Second paragraph." "text" 0
                     "u1" ].
Proof. eexists. vm_compute. split; reflexivity. Qed.

End IngestorProps.

(** ** The indexer and the searcher *)

Module IndexProps.

(** C3, as the code has it.  For a user with no chunk at index time and no
    index file from an earlier run, the run of the indexer changes nothing:
    it writes no index, no mapping and no record.  The searcher for that user
    then cannot be built: loading the index file raises. *)
Theorem empty_chunk_set_builds_no_index (policy : AddPolicy) (user : string)
  (w : World) :
  Indexer.load_chunks w user = [] →
  hnsw_files w !! user = None →
  Indexer.run policy user w = Ok w
  ∧ Searcher.__init__ w user = Raise (RuntimeError "Cannot open file").
Proof.
  intros Hchunks Hfile. unfold Indexer.run, Searcher.__init__.
  by rewrite Hchunks, Hfile.
Qed.

Lemma empty_chunk_set_builds_no_index_witness :
  Indexer.run SkipExisting "u1" zero_docs_world = Ok zero_docs_world
  ∧ Searcher.__init__ zero_docs_world "u1"
    = Raise (RuntimeError "Cannot open file").
Proof.
  apply (empty_chunk_set_builds_no_index SkipExisting "u1" zero_docs_world);
    vm_compute; reflexivity.
Defined.

(** C3 as stated fails: the ingestion of a user without documents saves an
    empty chunk list, the indexer then leaves no index file, and the searcher
    raises instead of answering with an empty list. *)
Lemma search_after_empty_index_raises :
  Ingestor.run in_one_piece default_chunker Ingestor.Layout "u1" empty_world
  = Ok zero_docs_world
  ∧ Indexer.run SkipExisting "u1" zero_docs_world = Ok zero_docs_world
  ∧ hnsw_files zero_docs_world !! "u1" = None
  ∧ (let? s := Searcher.__init__ zero_docs_world "u1" in
     Searcher.search first_labels s zero_docs_world "any question" 20)
    = Raise (RuntimeError "Cannot open file").
Proof. vm_compute. repeat split. Qed.

(** The ids of the chunks of a run are 0, 1, 2, ... in order. *)
Lemma number_chunks_ids (lib : ChunkBuilder.SplitterLib) (chunker : ChunkBuilder.t)
  (user_id : string) (blocks : list Block) (cid : Z) (chunks : list Chunk) :
  Ingestor.number_chunks lib chunker user_id cid blocks = Ok chunks →
  chunk_id <$> chunks = (λ i, cid + Z.of_nat i) <$> seq 0 (length chunks).
Proof.
  revert cid chunks. induction blocks as [|b rest IH]; intros cid chunks H.
  - simpl in H. by simplify_eq.
  - simpl in H. destruct (blk_filename b) as [filename|].
    + destruct (Ingestor.number_chunks _ _ _ _ rest) as [more|] eqn:E;
        [|done].
      simpl in H. simplify_eq. specialize (IH _ _ E).
      rewrite fmap_app, IH, length_app, seq_app, fmap_app. f_equal.
      * unfold Ingestor.chunks_of_block.
        by rewrite length_imap, fmap_imap, (imap_seq_0 _ (λ i, cid + Z.of_nat i)).
      * unfold Ingestor.chunks_of_block. rewrite length_imap.
        rewrite (Nat.add_comm 0), <- fmap_add_seq, <- list_fmap_compose.
        apply list_fmap_ext. intros i x _. simpl. lia.
    + destruct (ChunkBuilder.split_text lib chunker (blk_text b)); [|done].
      by apply IH.
Qed.

Lemma chunk_ids_start_at_zero (lib : ChunkBuilder.SplitterLib)
  (chunker : ChunkBuilder.t) (user_id : string) (blocks : list Block)
  (chunks : list Chunk) :
  Ingestor.build_chunks lib chunker user_id blocks = Ok chunks →
  chunk_id <$> chunks = Z.of_nat <$> seq 0 (length chunks).
Proof. intros H. by apply number_chunks_ids in H. Qed.

(** The state after both users were indexed, when the collection skips an
    id it already holds: one record, the one of alice. *)
Lemma index_both_skip :
  ∃ w, index_both SkipExisting = Ok w
       ∧ collection w = [Indexer.record_of "alice" alice_chunk]
       ∧ hnsw_files w !! "bob"
         = Some (mkHnswIndex 2 [Embedding "the own document of bob"])
       ∧ mapping_files w !! "bob" = Some {[ 0%nat := 0 ]}.
Proof. eexists. vm_compute. repeat split. Qed.

(** C1, evaluated on the code.  The claim says that a search for one user
    never returns a chunk of another user.  Alice and bob each have one
    chunk, numbered 0 by their own ingestion run, and both are indexed.  The
    index of bob holds one vector, so its answer to a query for one neighbour
    is the label 0; the search for bob then returns the record of alice, with
    her text and her [user_id]. *)
Theorem search_returns_chunk_of_other_user (knn : Searcher.KnnLib)
  (query : string) :
  knn [Embedding "the own document of bob"] (Embedding query) 1 = Ok [0%nat] →
  ∃ w s,
    index_both SkipExisting = Ok w
    ∧ Searcher.__init__ w "bob" = Ok s
    ∧ Searcher.search knn s w query 1
      = Ok [ Searcher.mkMatch 0 "the private notes of alice" 0
               (mkMetadata "alice" "a.txt" 0) ].
Proof.
  intros Hknn. destruct index_both_skip as (w & Hw & Hcol & Hidx & Hmap).
  exists w, (Searcher.mkSearcher "bob"
               (mkHnswIndex 2 [Embedding "the own document of bob"])).
  split; [done|]. split.
  - unfold Searcher.__init__. by rewrite Hidx.
  - unfold Searcher.search. simpl. rewrite Hmap, Hknn, Hcol. simpl.
    by vm_compute.
Qed.

Lemma search_returns_chunk_of_other_user_witness :
  ∃ w s,
    index_both SkipExisting = Ok w
    ∧ Searcher.__init__ w "bob" = Ok s
    ∧ Searcher.search first_labels s w "what did alice write?" 1
      = Ok [ Searcher.mkMatch 0 "the private notes of alice" 0
               (mkMetadata "alice" "a.txt" 0) ].
Proof.
  apply (search_returns_chunk_of_other_user first_labels
           "what did alice write?").
  vm_compute. reflexivity.
Defined.

(** When the collection overwrites an id it already holds, the leak goes the
    other way: the search for alice returns the record of bob. *)
Lemma search_returns_chunk_of_other_user_overwrite :
  (let? w := index_both Overwrite in
   let? s := Searcher.__init__ w "alice" in
   Searcher.search first_labels s w "what did bob write?" 1)
  = Ok [ Searcher.mkMatch 0 "the own document of bob" 0
           (mkMetadata "bob" "b.txt" 0) ].
Proof. vm_compute. reflexivity. Qed.

(** When the collection rejects an id it already holds, the second user
    cannot be indexed at all. *)
Lemma second_user_not_indexed_on_reject :
  index_both RejectExisting = Raise (ValueError "ID already exists").
Proof. vm_compute. reflexivity. Qed.

End IndexProps.

(** ** Python strings: normalization and words *)

Module PyStrProps.
Import PyStr.

Lemma isspace_lower_char (c : ascii) : isspace (lower_char c) = isspace c.
Proof. destruct c as [[] [] [] [] [] [] [] []]; reflexivity. Qed.

Lemma lower_char_idemp (c : ascii) : lower_char (lower_char c) = lower_char c.
Proof. destruct c as [[] [] [] [] [] [] [] []]; reflexivity. Qed.

Lemma lower_idemp (s : string) : lower (lower s) = lower s.
Proof. induction s as [|c r IH]; simpl; [done|]. by rewrite lower_char_idemp, IH. Qed.

Lemma lower_empty (s : string) : lower s = "" ↔ s = "".
Proof. by destruct s. Qed.

Lemma collapse_ws_go_lower (b : bool) (s : string) :
  collapse_ws_go b (lower s) = lower (collapse_ws_go b s).
Proof.
  revert b. induction s as [|c r IH]; intros b; simpl; [done|].
  rewrite isspace_lower_char. destruct (isspace c) eqn:E.
  - destruct b; simpl; by rewrite IH.
  - simpl. by rewrite IH.
Qed.

Lemma lstrip_lower (s : string) : lstrip (lower s) = lower (lstrip s).
Proof.
  induction s as [|c r IH]; simpl; [done|].
  rewrite isspace_lower_char. by destruct (isspace c).
Qed.

Lemma rstrip_lower (s : string) : rstrip (lower s) = lower (rstrip s).
Proof.
  induction s as [|c r IH]; simpl; [done|].
  rewrite isspace_lower_char, IH.
  destruct (isspace c); simpl; [|done].
  destruct (rstrip r); simpl; done.
Qed.

Lemma strip_lower (s : string) : strip (lower s) = lower (strip s).
Proof. unfold strip. by rewrite rstrip_lower, lstrip_lower. Qed.

Lemma collapse_ws_go_idemp (b : bool) (s : string) :
  collapse_ws_go b (collapse_ws_go b s) = collapse_ws_go b s.
Proof.
  revert b. induction s as [|c r IH]; intros b; simpl; [done|].
  destruct (isspace c) eqn:E.
  - destruct b; [apply IH|]. simpl. by rewrite IH.
  - simpl. by rewrite E, IH.
Qed.

Lemma lstrip_collapse_ws_go (b : bool) (s : string) :
  lstrip (collapse_ws_go b s) = collapse_ws_go false (lstrip s).
Proof.
  revert b. induction s as [|c r IH]; intros b; simpl; [done|].
  destruct (isspace c) eqn:E.
  - destruct b; simpl; apply IH.
  - simpl. by rewrite E.
Qed.

Lemma collapse_rstrip_empty (s : string) :
  collapse_ws_go true (rstrip s) = "" → rstrip s = "".
Proof.
  induction s as [|c r IH]; simpl; [done|].
  destruct (isspace c) eqn:E; simpl.
  - case_bool_decide as Hr; [done|]. simpl. rewrite E.
    intros Hc. by apply IH in Hc.
  - by rewrite E.
Qed.

Lemma rstrip_collapse_ws_go (b : bool) (s : string) :
  rstrip (collapse_ws_go b s) = collapse_ws_go b (rstrip s).
Proof.
  revert b. induction s as [|c r IH]; intros b; simpl; [done|].
  destruct (isspace c) eqn:E; simpl.
  - case_bool_decide as Hr.
    + destruct b; simpl; rewrite ?IH, Hr; simpl; done.
    + destruct b; simpl; rewrite ?E, IH; [done|].
      rewrite bool_decide_eq_false_2; [done|].
      intros Hc. by apply collapse_rstrip_empty in Hc.
  - by rewrite E, IH.
Qed.

Lemma lstrip_idemp (s : string) : lstrip (lstrip s) = lstrip s.
Proof.
  induction s as [|c r IH]; simpl; [done|].
  destruct (isspace c) eqn:E; [done|]. simpl. by rewrite E.
Qed.

Lemma rstrip_idemp (s : string) : rstrip (rstrip s) = rstrip s.
Proof.
  induction s as [|c r IH]; simpl; [done|].
  destruct (isspace c && bool_decide (rstrip r = "")) eqn:E; [done|].
  simpl. by rewrite IH, E.
Qed.

Lemma rstrip_lstrip (s : string) : rstrip (lstrip s) = lstrip (rstrip s).
Proof.
  induction s as [|c r IH]; simpl; [done|].
  destruct (isspace c) eqn:E; simpl.
  - rewrite IH. case_bool_decide as Hr; simpl; [by rewrite Hr|by rewrite E].
  - by rewrite E.
Qed.

Lemma strip_idemp (s : string) : strip (strip s) = strip s.
Proof.
  unfold strip. by rewrite rstrip_lstrip, rstrip_idemp, lstrip_idemp.
Qed.

Lemma strip_collapse_fixed (s : string) :
  collapse_ws (strip (collapse_ws s)) = strip (collapse_ws s).
Proof.
  unfold strip, collapse_ws.
  by rewrite <- (lstrip_collapse_ws_go false), <- rstrip_collapse_ws_go,
             collapse_ws_go_idemp.
Qed.

(** *** Words *)

Lemma split_go_app_space (cur a : string) (sp : ascii) (c : string) :
  isspace sp = true →
  split_go cur (a +:+ String sp c) = split_go cur a ++ split_go "" c.
Proof.
  intros Hsp. revert cur. induction a as [|x a IH]; intros cur.
  - change ("" +:+ String sp c) with (String sp c). simpl. by rewrite Hsp.
  - change (String x a +:+ String sp c) with (String x (a +:+ String sp c)).
    simpl. destruct (isspace x); [|apply IH].
    by rewrite IH, app_assoc.
Qed.

Lemma split_lstrip (s : string) : split (lstrip s) = split s.
Proof.
  unfold split. induction s as [|c r IH]; simpl; [done|].
  destruct (isspace c) eqn:E; simpl; [done|]. by rewrite E.
Qed.

Lemma split_go_rstrip (cur s : string) :
  split_go cur (rstrip s) = split_go cur s.
Proof.
  revert cur. induction s as [|c r IH]; intros cur; simpl; [done|].
  destruct (isspace c) eqn:E; simpl.
  - case_bool_decide as Hr; simpl.
    + rewrite <- (IH ""), Hr. simpl. by rewrite app_nil_r.
    + by rewrite E, IH.
  - by rewrite E, IH.
Qed.

Lemma split_strip (s : string) : split (strip s) = split s.
Proof. unfold strip. rewrite split_lstrip. apply split_go_rstrip. Qed.

Lemma split_go_collapse (s : string) :
  (∀ cur, split_go cur (collapse_ws_go false s) = split_go cur s)
  ∧ split_go "" (collapse_ws_go true s) = split_go "" s.
Proof.
  induction s as [|c r [IH1 IH2]]; simpl; [done|].
  destruct (isspace c) eqn:E; simpl.
  - split; [intros cur|]; by rewrite ?IH2.
  - rewrite E. split; [intros cur|]; by rewrite IH1.
Qed.

Lemma rev_app_lower (s acc : string) :
  String.rev_app (lower s) (lower acc) = lower (String.rev_app s acc).
Proof.
  revert acc. induction s as [|c r IH]; intros acc; simpl; [done|].
  apply (IH (String c acc)).
Qed.

Lemma split_go_lower (cur s : string) :
  split_go (lower cur) (lower s) = lower <$> split_go cur s.
Proof.
  revert cur. induction s as [|c r IH]; intros cur; simpl.
  - destruct cur; [done|]. simpl.
    f_equal. apply (rev_app_lower (String _ _) "").
  - rewrite isspace_lower_char. destruct (isspace c).
    + rewrite fmap_app, <- (IH ""). f_equal.
      destruct cur; [done|]. simpl.
      f_equal. apply (rev_app_lower (String _ _) "").
    + apply (IH (String c cur)).
Qed.

End PyStrProps.

(** ** More on the block sanitizer *)

Module SanitizerMore.
Import BlockProcessor SanitizerSpec SanitizerProps.

(** X1.  Normalizing a normalized text changes nothing. *)
Theorem norm_text_idempotent (s : string) :
  _norm_text (_norm_text s) = _norm_text s.
Proof.
  unfold _norm_text. unfold PyStr.collapse_ws at 1.
  rewrite PyStrProps.collapse_ws_go_lower, PyStrProps.strip_lower,
          PyStrProps.lower_idemp.
  f_equal. fold (PyStr.collapse_ws (PyStr.strip (PyStr.collapse_ws s))).
  by rewrite PyStrProps.strip_collapse_fixed, PyStrProps.strip_idemp.
Qed.

Lemma norm_words (s : string) :
  PyStr.split (_norm_text s) = PyStr.lower <$> PyStr.split s.
Proof.
  unfold _norm_text, PyStr.split.
  rewrite (PyStrProps.split_go_lower "").
  fold (PyStr.split (PyStr.strip (PyStr.collapse_ws s))).
  rewrite PyStrProps.split_strip. unfold PyStr.split, PyStr.collapse_ws.
  by rewrite (proj1 (PyStrProps.split_go_collapse s)).
Qed.

(** X2.  The words of the normalized text are the words of the text, in
    lower case: normalization neither joins nor breaks a word. *)
Theorem norm_text_words (s : string) :
  PyStr.split (_norm_text s) = PyStr.lower <$> PyStr.split s.
Proof. apply norm_words. Qed.

Section any_parameters.
Variables (min_repeat y_tolerance max_header_words max_header_chars : Z).

#[local] Abbreviation run :=
  (remove_page_headers_footers min_repeat y_tolerance max_header_words
     max_header_chars).
#[local] Abbreviation rule :=
  (candidate min_repeat y_tolerance max_header_words max_header_chars).

(** X3.  The sanitizer only removes: what it returns is its input with some
    blocks left out, in the order of the input. *)
Theorem sanitizer_returns_sublist (bs : list Block) : sublist (run bs) bs.
Proof. rewrite sanitizer_is_filter. apply sublist_filter. Qed.

Lemma outside_ceiling_no_candidate (bs : list Block) (t : string) :
  skipped max_header_words max_header_chars t = true → rule bs t = false.
Proof. intros H. by rewrite candidate_unfold, H. Qed.

(** X4.  A block that is not tagged [page-header] is never dropped when its
    text is blank, when its normalized text has more characters than
    [max_header_chars], or when the text has more words than
    [max_header_words], however often it repeats. *)
Theorem long_or_blank_text_is_kept (bs : list Block) (b : Block) :
  In b bs →
  get_type_lower b ≠ "page-header" →
  _norm_text (blk_text b) = ""
  ∨ max_header_chars < PyStr.len (_norm_text (blk_text b))
  ∨ max_header_words < Z.of_nat (length (PyStr.split (blk_text b))) →
  In b (run bs).
Proof.
  intros Hb Hty Hout. apply sanitizer_In. split; [done|]. split; [done|].
  apply outside_ceiling_no_candidate. unfold skipped.
  rewrite norm_words, length_fmap.
  destruct Hout as [->|[Hc|Hw]].
  - done.
  - apply Z.ltb_lt in Hc. rewrite Hc. by rewrite orb_true_r.
  - apply Z.ltb_lt in Hw. rewrite Hw. by rewrite orb_true_r.
Qed.

Lemma distinct_pages_bound (bs : list Block) (t : string) :
  (distinct_pages t bs ≤ length (remove_dups (get_page <$> bs)))%nat.
Proof.
  unfold distinct_pages, occurrences. apply submseteq_length, NoDup_submseteq.
  - apply NoDup_remove_dups.
  - intros pg. rewrite !elem_of_remove_dups, !list_elem_of_fmap.
    intros (b & -> & Hb). exists b. split; [done|].
    by apply list_elem_of_filter in Hb as [_ ?].
Qed.

(** X5.  When the blocks of the input lie on fewer than [min_repeat] distinct
    pages, no text repeats on enough pages: only the blocks tagged
    [page-header] are removed. *)
Theorem few_pages_only_tagged_headers_go (bs : list Block) :
  Z.of_nat (length (remove_dups (get_page <$> bs))) < min_repeat →
  run bs = filter (λ b, get_type_lower b ≠ "page-header") bs.
Proof.
  intros Hfew. rewrite sanitizer_characterised. apply list_filter_iff.
  intros b. split; [tauto|]. intros Hty. split; [done|].
  unfold candidate. pose proof (distinct_pages_bound bs (_norm_text (blk_text b))).
  replace (min_repeat <=? _) with false by (symmetry; apply Z.leb_gt; lia).
  by rewrite andb_false_r.
Qed.

End any_parameters.

Lemma long_or_blank_text_is_kept_witness :
  In (text_block "text" "   " 0 100)
     (remove_page_headers_footers 1 20 12 80
        [text_block "text" "   " 0 100; text_block "text" " " 1 100]).
Proof.
  apply long_or_blank_text_is_kept.
  - by left.
  - vm_compute. discriminate.
  - left. vm_compute. reflexivity.
Defined.

Lemma few_pages_only_tagged_headers_go_witness :
  sanitize own_header_blocks
  = filter (λ b, get_type_lower b ≠ "page-header") own_header_blocks.
Proof.
  apply (few_pages_only_tagged_headers_go 3 20 12 80 own_header_blocks).
  vm_compute. reflexivity.
Defined.

End SanitizerMore.

(** ** More on the chunk builder *)

Module ChunkBuilderMore.
Import ChunkBuilder ChunkBuilderSpec.

#[local] Arguments merge_step : simpl never.
#[local] Arguments dedup_step : simpl never.
#[local] Arguments last_window : simpl never.

(** *** The duplicate pass *)

Lemma dedup_step_eq (w : Z) (c : list Block) (b : Block) :
  dedup_step w (dedup_key <$> c, c) b
  = if bool_decide (dedup_key b ∈ last_window w (dedup_key <$> c))
    then (dedup_key <$> c, c)
    else (dedup_key <$> (c ++ [b]), c ++ [b]).
Proof.
  unfold dedup_step. fold (dedup_key b). rewrite fmap_app.
  by case_bool_decide.
Qed.

Lemma window_fresh_nil (w : Z) : window_fresh w [].
Proof. intros p b s H. by destruct p. Qed.

Lemma window_fresh_snoc (w : Z) (l : list Block) (b : Block) :
  window_fresh w l →
  dedup_key b ∉ last_window w (dedup_key <$> l) →
  window_fresh w (l ++ [b]).
Proof.
  intros Hl Hb p b' s Heq.
  destruct s as [|x s _] using rev_ind.
  - apply app_inj_tail in Heq as [-> ->]. done.
  - rewrite app_comm_cons, app_assoc in Heq.
    apply app_inj_tail in Heq as [-> _]. by eapply Hl.
Qed.

Lemma window_fresh_prefix (w : Z) (l k : list Block) :
  window_fresh w (l ++ k) → window_fresh w l.
Proof.
  intros H p b s ->. apply (H p b (s ++ k)). by rewrite <- !app_assoc.
Qed.

Lemma dedup_fold (w : Z) (bs c : list Block) :
  ∃ k, foldl (dedup_step w) (dedup_key <$> c, c) bs
       = (dedup_key <$> (c ++ k), c ++ k)
       ∧ sublist k bs
       ∧ (window_fresh w c → window_fresh w (c ++ k)).
Proof.
  revert c. induction bs as [|b bs IH]; intros c.
  - exists []. rewrite app_nil_r. done.
  - simpl. rewrite dedup_step_eq. case_bool_decide as Hin.
    + destruct (IH c) as (k & -> & Hsub & Hfresh). exists k.
      split; [done|]. split; [by apply sublist_cons|done].
    + destruct (IH (c ++ [b])) as (k & -> & Hsub & Hfresh).
      exists (b :: k). rewrite <- !app_assoc. simpl.
      split; [done|]. split; [by apply sublist_skip|].
      intros Hc. replace (c ++ b :: k) with ((c ++ [b]) ++ k)
        by by rewrite <- app_assoc.
      apply Hfresh. by apply window_fresh_snoc.
Qed.

Lemma dedup_shape (w : Z) (bs : list Block) :
  sublist (remove_near_duplicates bs w) bs
  ∧ window_fresh w (remove_near_duplicates bs w).
Proof.
  unfold remove_near_duplicates.
  destruct (dedup_fold w bs []) as (k & Hk & Hsub & Hfresh).
  simpl in Hk. rewrite Hk. simpl. split; [done|].
  apply Hfresh, window_fresh_nil.
Qed.

Lemma dedup_fixed (w : Z) (s c : list Block) :
  window_fresh w (c ++ s) →
  foldl (dedup_step w) (dedup_key <$> c, c) s
  = (dedup_key <$> (c ++ s), c ++ s).
Proof.
  revert c. induction s as [|b s IH]; intros c Hfresh.
  - by rewrite app_nil_r.
  - simpl. rewrite dedup_step_eq.
    rewrite bool_decide_eq_false_2 by by eapply Hfresh.
    rewrite IH; rewrite <- !app_assoc; done.
Qed.

(** X6.  The duplicate pass only removes: its result is the input with some
    blocks left out, in the order of the input. *)
Theorem dedup_returns_sublist (bs : list Block) (windows : Z) :
  sublist (remove_near_duplicates bs windows) bs.
Proof. apply dedup_shape. Qed.

(** X7.  With a window of [windows > 0], two blocks that the pass keeps at
    most [windows] places apart never have the same normalized text. *)
Theorem dedup_no_repeat_in_window (bs : list Block) (windows : Z)
  (i j : nat) (bi bj : Block) :
  0 < windows →
  remove_near_duplicates bs windows !! i = Some bi →
  remove_near_duplicates bs windows !! j = Some bj →
  (i < j)%nat → Z.of_nat j - Z.of_nat i <= windows →
  dedup_key bi ≠ dedup_key bj.
Proof.
  intros Hw Hi Hj Hij Hclose Heq.
  destruct (dedup_shape windows bs) as [_ Hfresh].
  set (out := remove_near_duplicates bs windows) in *.
  apply (Hfresh (take j out) bj (drop (S j) out)).
  { by rewrite <- (take_drop_middle out j bj) at 1. }
  rewrite <- Heq. unfold last_window.
  replace (windows =? 0) with false by (symmetry; apply Z.eqb_neq; lia).
  replace (0 <? windows) with true by (symmetry; apply Z.ltb_lt; lia).
  apply list_elem_of_lookup.
  pose proof (lookup_lt_Some _ _ _ Hj) as Hlen.
  rewrite length_fmap, length_take_le by lia.
  exists (i - (j - Z.to_nat windows))%nat.
  rewrite lookup_drop, list_lookup_fmap.
  replace (j - Z.to_nat windows + (i - (j - Z.to_nat windows)))%nat with i
    by lia.
  by rewrite lookup_take_lt, Hi by lia.
Qed.

Lemma dedup_no_repeat_in_window_witness :
  dedup_key (text_block "text" "Total" 0 1)
  ≠ dedup_key (text_block "text" "Sum" 0 3).
Proof.
  apply (dedup_no_repeat_in_window
           [ text_block "text" "Total" 0 1; text_block "text" " total " 0 2;
             text_block "text" "Sum" 0 3 ] 10 0 1);
    [lia | vm_compute; reflexivity | vm_compute; reflexivity | lia | lia].
Defined.

(** X8.  With [windows = 0] the slice [seen[-0:]] is the whole list: the pass
    then compares with every block kept so far, and no two blocks of its
    result have the same normalized text. *)
Theorem dedup_window_zero_is_global (bs : list Block) :
  NoDup (dedup_key <$> remove_near_duplicates bs 0).
Proof.
  destruct (dedup_shape 0 bs) as [_ Hfresh].
  induction (remove_near_duplicates bs 0) as [|b l IH] using rev_ind.
  - constructor.
  - rewrite fmap_app. simpl. apply NoDup_app. split; [|split].
    + apply IH. by eapply window_fresh_prefix.
    + intros x Hx Hb. apply list_elem_of_singleton in Hb as ->.
      by apply (Hfresh l b []).
    + apply NoDup_singleton.
Qed.

(** X9.  Running the duplicate pass on its own result changes nothing, for
    every window. *)
Theorem dedup_idempotent (bs : list Block) (windows : Z) :
  remove_near_duplicates (remove_near_duplicates bs windows) windows
  = remove_near_duplicates bs windows.
Proof.
  destruct (dedup_shape windows bs) as [_ Hfresh].
  unfold remove_near_duplicates at 1.
  by rewrite (dedup_fixed windows _ []).
Qed.

(** *** The merge pass *)

Lemma split_joined (a t : string) :
  PyStr.split (a +:+ " " +:+ PyStr.strip t) = PyStr.split a ++ PyStr.split t.
Proof.
  unfold PyStr.split.
  change (" " +:+ PyStr.strip t) with (String " "%char (PyStr.strip t)).
  rewrite PyStrProps.split_go_app_space by done.
  f_equal. apply PyStrProps.split_strip.
Qed.

Lemma append_text_words (buf b : Block) :
  PyStr.split (blk_text (append_text buf b))
  = PyStr.split (blk_text buf) ++ PyStr.split (blk_text b).
Proof. apply split_joined. Qed.

Lemma word_count_words (b : Block) :
  word_count b = Z.of_nat (length (PyStr.split (blk_text b))).
Proof. unfold word_count. by rewrite PyStrProps.split_strip. Qed.

Lemma words_of_app (l k : list Block) :
  words_of (l ++ k) = words_of l ++ words_of k.
Proof. unfold words_of. by rewrite fmap_app, concat_app. Qed.

(** The words held by a state of the walk: those emitted, then those of the
    buffer. *)
Lemma merge_step_words (mw : Z) (st : list Block * option Block) (b : Block) :
  words_of (flush (merge_step mw st b))
  = words_of (flush st) ++ PyStr.split (blk_text b).
Proof.
  destruct st as [merged [buf|]]; unfold merge_step, flush;
    destruct (word_count b <? mw); repeat case_bool_decide; simpl;
    rewrite ?words_of_app; unfold words_of; simpl;
    rewrite ?split_joined, ?app_nil_r, <- ?app_assoc; done.
Qed.

(** X10.  The merge pass keeps every word: the words of the texts of its
    result, read in order, are the words of the texts of its input. *)
Theorem merge_keeps_words (bs : list Block) (min_words : Z) :
  words_of (merge_small_blocks bs min_words) = words_of bs.
Proof.
  unfold merge_small_blocks, merge_from.
  assert (∀ st, words_of (flush (foldl (merge_step min_words) st bs))
                = words_of (flush st) ++ words_of bs) as H.
  { induction bs as [|b bs IH]; intros st; simpl.
    - by rewrite app_nil_r.
    - rewrite IH, merge_step_words, <- app_assoc. done. }
  by rewrite H.
Qed.

Lemma set_text_set_text (b : Block) (t1 t2 : string) :
  set_text (set_text b t1) t2 = set_text b t2.
Proof. done. Qed.

Lemma set_text_same (b : Block) : set_text b (blk_text b) = b.
Proof. by destruct b. Qed.

Lemma merge_metadata (bs : list Block) (min_words : Z) (o : Block) :
  In o (merge_small_blocks bs min_words) →
  ∃ b, In b bs ∧ o = set_text b (blk_text o).
Proof.
  unfold merge_small_blocks, merge_from.
  pose (Q := λ o : Block, ∃ b, In b bs ∧ o = set_text b (blk_text o)).
  assert (∀ l st, (∀ b, In b l → In b bs) →
            (∀ x, In x (flush st) → Q x) →
            ∀ x, In x (flush (foldl (merge_step min_words) st l)) → Q x) as H.
  { induction l as [|b l IH]; intros st Hl Hst; [done|]. simpl.
    apply IH; [intros; apply Hl; by right|].
    assert (Q b) as Hb.
    { exists b. split; [apply Hl; by left|]. by rewrite set_text_same. }
    assert (∀ buf, Q buf → Q (append_text buf b)) as Happ.
    { intros buf (b0 & Hb0 & Hbuf). exists b0. split; [done|].
      unfold append_text. rewrite Hbuf at 1. done. }
    destruct st as [merged [buf|]]; unfold merge_step, flush in *;
      destruct (word_count b <? min_words); repeat case_bool_decide;
      simpl in *; intros x; rewrite ?in_app_iff; simpl;
      intros Hx; repeat destruct Hx as [Hx|Hx]; subst; try done;
      try (apply Hb); try (apply Happ); try (apply Hst);
      rewrite ?in_app_iff; simpl; auto. }
  intros Ho. apply (H bs ([], None)); [done| intros ? []|done].
Qed.

(** X11.  Every block of the result of the merge pass has the type, page,
    height, file name and user of a block of the input: only texts are
    joined. *)
Theorem merge_keeps_metadata (bs : list Block) (min_words : Z) (o : Block) :
  In o (merge_small_blocks bs min_words) →
  ∃ b, In b bs ∧ o = set_text b (blk_text o).
Proof. apply merge_metadata. Qed.

Lemma small_then_page_change_snoc (mw : Z) (l : list Block) (z : Block) :
  small_then_page_change mw l →
  (∀ x, last l = Some x → word_count x < mw → get_page x ≠ get_page z) →
  small_then_page_change mw (l ++ [z]).
Proof.
  induction l as [|x [|y r] IH]; intros Hl Hlast; simpl in *.
  - done.
  - split; [|done]. by apply Hlast.
  - destruct Hl as [Hxy Hr]. split; [done|]. by apply IH.
Qed.

(** The invariant of the walk: what was emitted is in order, and a block
    under [min_words] at its end is followed by a buffer of another page. *)
Lemma merge_step_pages (mw : Z) (st : list Block * option Block) (b : Block) :
  let ok st :=
    small_then_page_change mw st.1
    ∧ ∀ x, last st.1 = Some x → word_count x < mw →
           match st.2 with
           | Some buf => get_page x ≠ get_page buf
           | None => False
           end in
  ok st → ok (merge_step mw st b).
Proof.
  intros ok [Hadj Hlast]. destruct st as [merged buf]. simpl in *.
  unfold ok, merge_step. clear ok.
  destruct (word_count b <? mw) eqn:Hsmall; destruct buf as [buf|];
    repeat case_bool_decide; simpl.
  - split; [done|]. intros x Hx Hw. by apply (Hlast x).
  - split.
    + apply small_then_page_change_snoc; [done|]. intros x Hx Hw.
      by apply (Hlast x).
    + intros x. rewrite last_snoc. by intros [= <-] _.
  - split; [done|]. intros x Hx Hw. by destruct (Hlast x).
  - split.
    + apply small_then_page_change_snoc; [done|]. intros x Hx Hw.
      by apply (Hlast x).
    + intros x. rewrite last_snoc. intros [= <-].
      rewrite word_count_words, append_text_words, length_app.
      rewrite word_count_words in Hsmall. apply Z.ltb_ge in Hsmall. lia.
  - split.
    + change (merged ++ [buf; b]) with (merged ++ [buf] ++ [b]).
      rewrite app_assoc. apply small_then_page_change_snoc.
      * apply small_then_page_change_snoc; [done|]. intros x Hx Hw.
        by apply (Hlast x).
      * intros x. rewrite last_snoc. by intros [= <-] _.
    + intros x. change (merged ++ [buf; b]) with (merged ++ [buf] ++ [b]).
      rewrite app_assoc, last_snoc. intros [= <-].
      apply Z.ltb_ge in Hsmall. lia.
  - split.
    + apply small_then_page_change_snoc; [done|]. intros x Hx Hw.
      by destruct (Hlast x).
    + intros x. rewrite last_snoc. intros [= <-].
      apply Z.ltb_ge in Hsmall. lia.
Qed.

Lemma merge_pages (bs : list Block) (mw : Z) :
  small_then_page_change mw (merge_small_blocks bs mw).
Proof.
  unfold merge_small_blocks, merge_from.
  assert (∀ st,
    (small_then_page_change mw st.1
     ∧ ∀ x, last st.1 = Some x → word_count x < mw →
            match st.2 with
            | Some buf => get_page x ≠ get_page buf
            | None => False
            end) →
    small_then_page_change mw (flush (foldl (merge_step mw) st bs))) as H.
  { induction bs as [|b bs IH]; intros st Hst; simpl.
    - destruct st as [merged [buf|]]; unfold flush; simpl in *; [|tauto].
      destruct Hst as [Hadj Hlast].
      apply small_then_page_change_snoc; [done|]. intros x Hx Hw.
      by apply (Hlast x).
    - apply IH. by apply (merge_step_pages mw st b). }
  apply H. simpl. split; [done|]. by intros x [=].
Qed.

(** X12.  In the result of the merge pass a block with fewer than
    [min_words] words is never followed by a block of the same page: a short
    block is left alone only at a page change or at the end. *)
Theorem merge_leaves_no_short_block_inside_a_page (bs : list Block)
  (min_words : Z) (i : nat) (x y : Block) :
  merge_small_blocks bs min_words !! i = Some x →
  merge_small_blocks bs min_words !! S i = Some y →
  word_count x < min_words →
  get_page x ≠ get_page y.
Proof.
  pose proof (merge_pages bs min_words) as H.
  revert i. induction (merge_small_blocks bs min_words) as [|a [|c r] IH];
    intros i Hx Hy Hw; [done|done|].
  destruct H as [Hac Hr]. destruct i as [|i]; simpl in *.
  - simplify_eq. by apply Hac.
  - by apply (IH Hr i).
Qed.

Lemma merge_leaves_no_short_block_inside_a_page_witness :
  get_page intro_block ≠ get_page body_block_next_page.
Proof.
  apply (merge_leaves_no_short_block_inside_a_page
           [intro_block; body_block_next_page] 20 0);
    [vm_compute; reflexivity | vm_compute; reflexivity | by vm_compute].
Defined.

Lemma merge_keeps_metadata_witness :
  ∃ b, In b [intro_block; body_block]
       ∧ append_text intro_block body_block
         = set_text b (blk_text (append_text intro_block body_block)).
Proof.
  apply (merge_keeps_metadata [intro_block; body_block] 20).
  vm_compute. by left.
Defined.

End ChunkBuilderMore.

(** ** More on the extractor, the page job and the model server *)

Module ExtractorMore.
Import LayoutExtractor PageJob ModelServer.

(** *** The order of the blocks of a PDF *)

Lemma key_le_total (a b : Block) : key_le a b = false → key_le b a = true.
Proof.
  unfold key_le.
  destruct (Z.ltb_spec (get_page a) (get_page b)),
           (Z.eqb_spec (get_page a) (get_page b)),
           (Z.leb_spec (get_y a) (get_y b)),
           (Z.ltb_spec (get_page b) (get_page a)),
           (Z.eqb_spec (get_page b) (get_page a)),
           (Z.leb_spec (get_y b) (get_y a)); simpl; try done; lia.
Qed.

Lemma key_le_trans (a b c : Block) :
  key_le a b = true → key_le b c = true → key_le a c = true.
Proof.
  unfold key_le.
  destruct (Z.ltb_spec (get_page a) (get_page b)),
           (Z.eqb_spec (get_page a) (get_page b)),
           (Z.leb_spec (get_y a) (get_y b)),
           (Z.ltb_spec (get_page b) (get_page c)),
           (Z.eqb_spec (get_page b) (get_page c)),
           (Z.leb_spec (get_y b) (get_y c)),
           (Z.ltb_spec (get_page a) (get_page c)),
           (Z.eqb_spec (get_page a) (get_page c)),
           (Z.leb_spec (get_y a) (get_y c)); simpl; try done; lia.
Qed.

Lemma insert_sorted_perm (b : Block) (l : list Block) :
  insert_sorted b l ≡ₚ b :: l.
Proof.
  induction l as [|x r IH]; simpl; [done|].
  destruct (key_le x b); [|done]. rewrite IH. apply Permutation_swap.
Qed.

Lemma insert_sorted_sorted (b : Block) (l : list Block) :
  StronglySorted (λ x y, key_le x y = true) l →
  StronglySorted (λ x y, key_le x y = true) (insert_sorted b l).
Proof.
  induction l as [|x r IH]; intros Hs; simpl.
  - repeat constructor.
  - apply StronglySorted_inv in Hs as [Hr Hall].
    destruct (key_le x b) eqn:E.
    + constructor; [by apply IH|].
      rewrite insert_sorted_perm. by constructor.
    + apply key_le_total in E. constructor; [by constructor|].
      constructor; [done|].
      eapply Forall_impl; [exact Hall|]. intros y Hy.
      by eapply key_le_trans.
Qed.

Lemma sorted_by_key_spec (l : list Block) :
  StronglySorted (λ x y, key_le x y = true) (sorted_by_key l)
  ∧ sorted_by_key l ≡ₚ l.
Proof.
  unfold sorted_by_key.
  assert (∀ acc, StronglySorted (λ x y, key_le x y = true) acc →
            StronglySorted (λ x y, key_le x y = true)
              (foldl (λ acc b, insert_sorted b acc) acc l)
            ∧ foldl (λ acc b, insert_sorted b acc) acc l ≡ₚ acc ++ l) as H.
  { induction l as [|b l IH]; intros acc Hacc; simpl.
    - by rewrite app_nil_r.
    - destruct (IH (insert_sorted b acc)) as [Hs Hp];
        [by apply insert_sorted_sorted|].
      split; [done|]. rewrite Hp, insert_sorted_perm. simpl.
      apply Permutation_middle. }
  apply (H []). constructor.
Qed.

Lemma strongly_sorted_lookup {A} (R : A → A → Prop) (l : list A)
  (i j : nat) (a b : A) :
  StronglySorted R l → (i < j)%nat → l !! i = Some a → l !! j = Some b →
  R a b.
Proof.
  intros Hs. revert i j. induction Hs as [|x r Hr IH Hall]; intros i j Hij Hi Hj.
  - done.
  - destruct j as [|j]; [lia|]. destruct i as [|i]; simpl in *.
    + simplify_eq. rewrite Forall_forall in Hall.
      by eapply Hall, list_elem_of_lookup_2.
    + apply (IH i j); [lia|done..].
Qed.

Lemma collect_pages_ok (pages : list (list Block)) :
  collect_pages (Ok <$> pages) = Ok pages.
Proof. induction pages as [|p r IH]; csimpl; [done|]. by rewrite IH. Qed.

Lemma collect_pages_inv (page_results : list (result (list Block)))
  (pages : list (list Block)) :
  collect_pages page_results = Ok pages → page_results = Ok <$> pages.
Proof.
  revert pages. induction page_results as [|[p|e] r IH]; intros pages H;
    simpl in H; simplify_eq; [done|].
  destruct (collect_pages r) as [ps|]; simplify_eq/=. f_equal. by apply IH.
Qed.

(** X13.  When every page job returns, the blocks of a PDF are the blocks of
    its pages put in reading order: by page, and by height within a page,
    whatever the order in which a page lists its boxes. *)
Theorem pdf_blocks_in_reading_order
  (page_results : list (result (list Block))) (blocks : list Block) :
  _extract_pdf page_results = Ok blocks →
  (∃ pages, page_results = Ok <$> pages ∧ blocks ≡ₚ concat pages)
  ∧ ∀ i j a b, (i < j)%nat → blocks !! i = Some a → blocks !! j = Some b →
      get_page a < get_page b
      ∨ (get_page a = get_page b ∧ get_y a <= get_y b).
Proof.
  unfold _extract_pdf. destruct (collect_pages page_results) as [pages|] eqn:E;
    [|done].
  simpl. intros [= <-].
  destruct (sorted_by_key_spec (concat pages)) as [Hs Hp]. split.
  - exists pages. split; [by apply collect_pages_inv|done].
  - intros i j a b Hij Hi Hj.
    pose proof (strongly_sorted_lookup _ _ i j a b Hs Hij Hi Hj) as Hle.
    unfold key_le in Hle.
    destruct (Z.ltb_spec (get_page a) (get_page b)); [by left|].
    destruct (Z.eqb_spec (get_page a) (get_page b)); [|done].
    destruct (Z.leb_spec (get_y a) (get_y b)); [|done]. by right.
Qed.

Lemma pdf_blocks_in_reading_order_witness :
  (∃ pages,
     [ Ok [text_block "text" "low" 0 700; text_block "title" "top" 0 40];
       Ok [text_block "text" "next" 1 90] ] = Ok <$> pages
     ∧ [ text_block "title" "top" 0 40; text_block "text" "low" 0 700;
         text_block "text" "next" 1 90 ] ≡ₚ concat pages)
  ∧ ∀ i j a b, (i < j)%nat →
      [ text_block "title" "top" 0 40; text_block "text" "low" 0 700;
        text_block "text" "next" 1 90 ] !! i = Some a →
      [ text_block "title" "top" 0 40; text_block "text" "low" 0 700;
        text_block "text" "next" 1 90 ] !! j = Some b →
      get_page a < get_page b
      ∨ (get_page a = get_page b ∧ get_y a <= get_y b).
Proof.
  apply (pdf_blocks_in_reading_order
           [ Ok [text_block "text" "low" 0 700; text_block "title" "top" 0 40];
             Ok [text_block "text" "next" 1 90] ]).
  vm_compute. reflexivity.
Defined.

(** X14.  One page job that raises loses the whole document: the extraction
    of the PDF raises the exception of the first such page, whatever the
    other pages returned. *)
Theorem pdf_fails_with_first_failed_page (before : list (list Block))
  (e : exn) (after : list (result (list Block))) :
  _extract_pdf ((Ok <$> before) ++ Raise e :: after) = Raise e.
Proof.
  unfold _extract_pdf.
  assert (collect_pages ((Ok <$> before) ++ Raise e :: after) = Raise e) as ->;
    [|done].
  induction before as [|p r IH]; csimpl; [done|]. by rewrite IH.
Qed.

(** X15.  No extractor emits a blank block: the text of every block of a
    DOCX file, of a text file and of a page is not empty and has no white
    space around it. *)
Theorem extracted_text_is_trimmed (paragraphs : list Paragraph)
  (content : string) (page_number : Z) (results : list Detection)
  (b : Block) :
  In b (_extract_docx paragraphs) ∨ In b (_extract_txt content)
  ∨ In b (blocks_of page_number results) →
  blk_text b ≠ "" ∧ PyStr.strip (blk_text b) = blk_text b.
Proof.
  rewrite <- !list_elem_of_In. intros [H|[H|H]].
  - apply list_elem_of_omap in H as (p & _ & Hp). cbv beta zeta in Hp.
    case_bool_decide; simplify_eq/=. split; [done|apply PyStrProps.strip_idemp].
  - unfold _extract_txt in H. apply list_elem_of_lookup in H as [i Hi].
    rewrite list_lookup_imap in Hi.
    destruct (filter _ _ !! i) as [p|] eqn:Ep; simplify_eq/=.
    apply list_elem_of_lookup_2, list_elem_of_filter in Ep as [Hne Hp].
    apply list_elem_of_fmap in Hp as (q & -> & _).
    split; [done|apply PyStrProps.strip_idemp].
  - apply list_elem_of_omap in H as (r & _ & Hr). cbv beta zeta in Hr.
    case_bool_decide; simplify_eq/=. split; [done|apply PyStrProps.strip_idemp].
Qed.

Lemma extracted_text_is_trimmed_witness :
  blk_text (text_block "title" "Overview" 0 0) ≠ ""
  ∧ PyStr.strip (blk_text (text_block "title" "Overview" 0 0))
    = blk_text (text_block "title" "Overview" 0 0).
Proof.
  apply (extracted_text_is_trimmed report_paragraphs "" 0 []).
  left. vm_compute. by left.
Defined.

(** X16.  The blocks of a text file are on page 0, of type [text], and
    numbered 0, 1, 2, ... by their height, in the order of the file. *)
Theorem txt_blocks_are_numbered (content : string) :
  blk_y <$> _extract_txt content
  = (λ i, Some (Z.of_nat i)) <$> seq 0 (length (_extract_txt content))
  ∧ Forall (λ b, blk_page b = Some 0 ∧ blk_type b = Some "text")
           (_extract_txt content).
Proof.
  unfold _extract_txt. set (paras := filter _ _). split.
  - rewrite fmap_imap, length_imap. unfold compose. simpl.
    apply (imap_seq_0 paras (λ i, Some (Z.of_nat i))).
  - apply Forall_forall. intros b Hb.
    apply list_elem_of_lookup in Hb as [i Hi]. rewrite list_lookup_imap in Hi.
    destruct (paras !! i); by simplify_eq/=.
Qed.

(** *** The wait of a page job *)

(** X17.  The wait loop of a page job never discards a response: when it
    leaves with its results, the responses left on the queue are those it
    found there, less its own; while it runs, they are those it found. *)
Theorem wait_keeps_other_responses (fuel : nat) (job_id : string)
  (resp_q : list Response) :
  match wait_response fuel job_id resp_q with
  | Got results resp_q' => Some (job_id, results) :: resp_q' ≡ₚ resp_q
  | Running resp_q' => resp_q' ≡ₚ resp_q
  | Failed _ => True
  end.
Proof.
  revert resp_q. induction fuel as [|fuel IH]; intros resp_q; simpl; [done|].
  destruct resp_q as [|[[jid results]|] rest]; [done| |done].
  case_bool_decide as Hj; [by subst|].
  specialize (IH (rest ++ [Some (jid, results)])).
  destruct (wait_response fuel job_id _) as [r q'|e|q']; [|done|].
  - rewrite IH. by rewrite Permutation_app_comm.
  - rewrite IH. by rewrite Permutation_app_comm.
Qed.

Lemma wait_finds (fuel : nat) (job_id : string)
  (front : list Response) (results : list Detection) (back : list Response) :
  Forall (λ m, ∃ jid r, m = Some (jid, r) ∧ jid ≠ job_id) front →
  (length front < fuel)%nat →
  wait_response fuel job_id (front ++ Some (job_id, results) :: back)
  = Got results (back ++ front).
Proof.
  revert fuel back. induction front as [|m front IH]; intros fuel back Hall Hf.
  - destruct fuel; [simpl in Hf; lia|]. simpl.
    rewrite bool_decide_eq_true_2 by done. by rewrite app_nil_r.
  - apply Forall_cons in Hall as [(jid & r & -> & Hne) Hall].
    destruct fuel; [simpl in Hf; lia|]. simpl.
    rewrite bool_decide_eq_false_2 by done.
    rewrite <- app_assoc. simpl.
    etrans; [apply (IH fuel (back ++ [Some (jid, r)]));
               [done|simpl in Hf; lia] |].
    by rewrite <- app_assoc.
Qed.

(** X18.  A page job receives its response when only responses of other jobs
    stand in front of it: after as many iterations as there are such
    responses plus one, the loop leaves with the results, and the responses
    it passed stand at the end of the queue, in order. *)
Theorem wait_finds_own_response (fuel : nat) (job_id : string)
  (front : list Response) (results : list Detection) (back : list Response) :
  Forall (λ m, ∃ jid r, m = Some (jid, r) ∧ jid ≠ job_id) front →
  (length front < fuel)%nat →
  wait_response fuel job_id (front ++ Some (job_id, results) :: back)
  = Got results (back ++ front).
Proof. apply wait_finds. Qed.

Lemma wait_finds_own_response_witness :
  wait_response 2 "job-of-this-page"
    ([stray_response] ++ Some ("job-of-this-page", []) :: [])
  = Got [] ([] ++ [stray_response]).
Proof.
  apply (wait_finds_own_response 2 "job-of-this-page" [stray_response] [] []).
  - constructor; [|constructor]. eexists _, _. split; [reflexivity|].
    discriminate.
  - simpl. lia.
Defined.

(** *** The model server *)

Lemma server_serves (predict : string → list Detection)
  (jobs : list (string * string)) (later : list Request)
  (resp_q : list Response) :
  model_server predict ((Some <$> jobs) ++ None :: later) resp_q
  = mkServed (resp_q ++ (answer predict <$> jobs)) later true.
Proof.
  revert resp_q. induction jobs as [|[jid png] jobs IH]; intros resp_q; csimpl.
  - by rewrite app_nil_r.
  - rewrite IH, <- app_assoc. done.
Qed.

(** X19.  The model server answers the requests in front of the first stop
    request, one response each, in order and with the job id of the request,
    and takes nothing after the stop request. *)
Theorem server_stops_at_sentinel (predict : string → list Detection)
  (jobs : list (string * string)) (later : list Request)
  (resp_q : list Response) :
  model_server predict ((Some <$> jobs) ++ None :: later) resp_q
  = mkServed (resp_q ++ (answer predict <$> jobs)) later true.
Proof. apply server_serves. Qed.

(** X20.  The server and a page job together, when the server has answered
    its queue before the job reads the responses and no other job takes from
    them: a page job whose request stands in front of the stop request, with
    a job id that no earlier request has, receives what the model predicts
    for its own page, and leaves the responses of the other jobs on the
    queue. *)
Theorem page_job_gets_own_prediction (predict : string → list Detection)
  (before after : list (string * string)) (job_id png : string)
  (later : list Request) :
  Forall (λ job, job.1 ≠ job_id) before →
  wait_response (S (length before)) job_id
    (responses (model_server predict
                  ((Some <$> before ++ (job_id, png) :: after) ++ None :: later)
                  []))
  = Got (predict png)
        ((answer predict <$> after) ++ (answer predict <$> before)).
Proof.
  intros Hfresh. rewrite server_serves.
  unfold responses. rewrite app_nil_l, fmap_app, fmap_cons.
  apply (wait_finds _ _ (answer predict <$> before) (predict png)
           (answer predict <$> after)); [|rewrite length_fmap; lia].
  apply Forall_fmap. eapply Forall_impl; [exact Hfresh|].
  intros [jid p] Hne. by eexists _, _.
Qed.

Lemma page_job_gets_own_prediction_witness :
  wait_response 2 "job-2"
    (responses (model_server (λ png, [mkDetection "Text" 5 png])
                  ((Some <$> [("job-1", "page one")] ++ ("job-2", "page two") :: [])
                   ++ None :: [])
                  []))
  = Got [mkDetection "Text" 5 "page two"]
        ((answer (λ png, [mkDetection "Text" 5 png]) <$> [])
         ++ (answer (λ png, [mkDetection "Text" 5 png])
               <$> [("job-1", "page one")])).
Proof.
  apply (page_job_gets_own_prediction (λ png, [mkDetection "Text" 5 png])
           [("job-1", "page one")] [] "job-2" "page two" []).
  constructor; [discriminate|constructor].
Defined.

End ExtractorMore.

(** ** More on the ingestor *)

Module IngestorMore.
Import Ingestor.

Lemma starmap_ok {A B} (f : A → result B) (tasks : list A) (ys : list B) :
  starmap f tasks = Ok ys → Forall2 (λ x y, f x = Ok y) tasks ys.
Proof.
  revert ys. induction tasks as [|x rest IH]; intros ys H; simpl in H.
  - by simplify_eq.
  - destruct (f x) as [y|] eqn:Ex; [|done].
    destruct (starmap f rest) as [ys'|]; [|done]. simpl in H. simplify_eq.
    constructor; auto.
Qed.

(** What the extraction step gives to the sanitizer is tagged. *)
Lemma extract_all_tagged (mode : Mode) (user_id : string)
  (docs : list Document) (blocks : list Block) (b : Block) :
  extract_all mode user_id docs = Ok blocks → b ∈ blocks →
  blk_user_id b = Some user_id
  ∧ ∃ doc, In doc docs ∧ blk_filename b = Some (doc_name doc).
Proof.
  destruct mode; simpl.
  - destruct (starmap _ docs) as [results|] eqn:E; [|done]. simpl.
    intros [= <-] Hb. apply starmap_ok in E.
    apply list_elem_of_In, in_concat in Hb as (r & Hr & Hb).
    apply list_elem_of_In in Hr, Hb.
    apply list_elem_of_lookup in Hr as [i Hi].
    destruct (Forall2_lookup_r _ _ _ _ _ E Hi) as (doc & Hdoc & Htask).
    unfold process_document_task in Htask.
    destruct (LayoutExtractor.extract doc) as [raw|]; [|done].
    simpl in Htask. simplify_eq.
    apply list_elem_of_fmap in Hb as (x & -> & _). simpl.
    split; [done|]. exists doc. split; [|done].
    by eapply list_elem_of_In, list_elem_of_lookup_2.
  - intros E Hb. apply starmap_ok in E.
    apply list_elem_of_lookup in Hb as [i Hi].
    destruct (Forall2_lookup_r _ _ _ _ _ E Hi) as (doc & Hdoc & Htask).
    destruct (DocumentLoader.load doc) as [text|]; [|done].
    simpl in Htask. simplify_eq. simpl.
    split; [done|]. exists doc. split; [|done].
    by eapply list_elem_of_In, list_elem_of_lookup_2.
Qed.

Lemma process_blocks_tagged (mode : Mode) (user_id : string)
  (docs : list Document) (blocks : list Block) (b : Block) :
  process_blocks mode user_id docs = Ok blocks → b ∈ blocks →
  blk_user_id b = Some user_id
  ∧ ∃ doc, In doc docs ∧ blk_filename b = Some (doc_name doc).
Proof.
  unfold process_blocks.
  destruct (extract_all mode user_id docs) as [raw|] eqn:E; [|done]. simpl.
  intros [= <-] Hb. apply (extract_all_tagged mode user_id docs raw b E).
  apply list_elem_of_In, SanitizerProps.sanitizer_In in Hb as [Hb _].
  by apply list_elem_of_In.
Qed.

(** X21.  Every block that [process_blocks] returns, in either mode, carries
    the user id of the run and the name of one of the documents given to
    it. *)
Theorem blocks_carry_user_and_file (mode : Mode) (user_id : string)
  (docs : list Document) (blocks : list Block) (b : Block) :
  process_blocks mode user_id docs = Ok blocks → In b blocks →
  blk_user_id b = Some user_id
  ∧ ∃ doc, In doc docs ∧ blk_filename b = Some (doc_name doc).
Proof.
  intros H Hb. apply (process_blocks_tagged mode user_id docs blocks b H).
  by apply list_elem_of_In.
Qed.

Lemma blocks_carry_user_and_file_witness :
  blk_user_id (mkBlock (Some "text") "Overview" (Some 0) (Some 0)
                 (Some "notes.txt") (Some "u1")) = Some "u1"
  ∧ ∃ doc, In doc [notes_txt]
           ∧ blk_filename (mkBlock (Some "text") "Overview" (Some 0) (Some 0)
                             (Some "notes.txt") (Some "u1"))
             = Some (doc_name doc).
Proof.
  apply (blocks_carry_user_and_file Layout "u1" [notes_txt]
           [ mkBlock (Some "text") "Overview" (Some 0) (Some 0)
               (Some "notes.txt") (Some "u1");
             mkBlock (Some "text") "First paragraph." (Some 0) (Some 1)
               (Some "notes.txt") (Some "u1");
             mkBlock (Some "text") "Second paragraph." (Some 0) (Some 2)
               (Some "notes.txt") (Some "u1") ]).
  - vm_compute. reflexivity.
  - by left.
Defined.

(** X22.  A user without documents is no error: when the directory of the
    user is missing or empty the run saves an empty chunk list, in either
    mode and whatever the splitter. *)
Theorem run_without_documents (lib : ChunkBuilder.SplitterLib)
  (chunker : ChunkBuilder.t) (mode : Mode) (user_id : string) (w : World) :
  load_documents w user_id = [] →
  run lib chunker mode user_id w = Ok (save_chunks w user_id []).
Proof.
  intros Hdocs. unfold run. rewrite Hdocs.
  assert (process_blocks mode user_id [] = Ok []) as ->
    by (destruct mode; vm_compute; reflexivity).
  done.
Qed.

Lemma run_without_documents_witness :
  run in_one_piece default_chunker TextMode "u1" empty_world
  = Ok (save_chunks empty_world "u1" []).
Proof. apply run_without_documents. vm_compute. reflexivity. Defined.

Lemma number_chunks_fields (lib : ChunkBuilder.SplitterLib)
  (chunker : ChunkBuilder.t) (user_id : string) (blocks : list Block)
  (cid : Z) (chunks : list Chunk) (ch : Chunk) :
  number_chunks lib chunker user_id cid blocks = Ok chunks → ch ∈ chunks →
  ch_user_id ch = user_id
  ∧ ∃ b, b ∈ blocks ∧ blk_filename b = Some (ch_filename ch)
         ∧ ch_page ch = get_page b
         ∧ ch_text ch ∈ ChunkBuilder.split_text lib chunker (blk_text b).
Proof.
  revert cid chunks. induction blocks as [|b rest IH]; intros cid chunks H Hch.
  - simpl in H. simplify_eq. by apply elem_of_nil in Hch.
  - simpl in H. destruct (blk_filename b) as [filename|] eqn:Ef.
    + destruct (number_chunks _ _ _ _ rest) as [more|] eqn:E; [|done].
      simpl in H. simplify_eq. apply elem_of_app in Hch as [Hch|Hch].
      * unfold chunks_of_block in Hch.
        apply list_elem_of_lookup in Hch as [i Hi].
        rewrite list_lookup_imap in Hi.
        destruct (ChunkBuilder.split_text lib chunker (blk_text b) !! i)
          as [part|] eqn:Ep; simplify_eq/=.
        split; [done|]. exists b. split; [apply list_elem_of_here|].
        split; [done|]. split; [done|]. by eapply list_elem_of_lookup_2.
      * destruct (IH _ _ E Hch) as (Hu & b' & Hb' & Hrest).
        split; [done|]. exists b'. split; [by apply list_elem_of_further|done].
    + destruct (ChunkBuilder.split_text lib chunker (blk_text b)); [|done].
      destruct (IH _ _ H Hch) as (Hu & b' & Hb' & Hrest).
      split; [done|]. exists b'. split; [by apply list_elem_of_further|done].
Qed.

Lemma merged_block_origin (bs : list Block) (mw : Z) (o : Block) :
  o ∈ ChunkBuilder.merge_small_blocks bs mw →
  ∃ b, b ∈ bs ∧ blk_filename o = blk_filename b
       ∧ blk_user_id o = blk_user_id b.
Proof.
  intros Ho. apply list_elem_of_In in Ho.
  destruct (ChunkBuilderMore.merge_metadata bs mw o Ho) as (b & Hb & ->).
  exists b. split; [by apply list_elem_of_In|done].
Qed.

(** X23.  A run that does not raise changes nothing but the chunk file of
    its user.  The chunks it saves there are numbered 0, 1, 2, ... in order,
    and each carries the user id of the run and the name of one of the
    documents of the user. *)
Theorem run_saves_numbered_chunks_of_user (lib : ChunkBuilder.SplitterLib)
  (chunker : ChunkBuilder.t) (mode : Mode) (user_id : string) (w w' : World) :
  run lib chunker mode user_id w = Ok w' →
  ∃ chunks,
    w' = save_chunks w user_id chunks
    ∧ chunk_id <$> chunks = Z.of_nat <$> seq 0 (length chunks)
    ∧ Forall (λ ch, ch_user_id ch = user_id
                    ∧ ∃ doc, In doc (load_documents w user_id)
                             ∧ ch_filename ch = doc_name doc) chunks.
Proof.
  unfold run.
  destruct (process_blocks _ _ _) as [blocks|] eqn:Eb; [|done]. simpl.
  destruct (build_chunks _ _ _ _) as [chunks|] eqn:Ec; [|done]. simpl.
  intros [= <-]. exists chunks. split; [done|]. split.
  - by apply IndexProps.number_chunks_ids in Ec.
  - apply Forall_forall. intros ch Hch. unfold build_chunks in Ec.
    destruct (number_chunks_fields _ _ _ _ _ _ ch Ec Hch)
      as (Hu & b & Hb & Hfile & _).
    split; [done|].
    apply merged_block_origin in Hb as (b0 & Hb0 & Hf0 & _).
    pose proof (ChunkBuilderMore.dedup_shape 10 blocks) as [Hsub _].
    apply sublist_submseteq in Hsub.
    assert (b0 ∈ blocks) as Hin by by eapply elem_of_submseteq.
    destruct (process_blocks_tagged _ _ _ _ b0 Eb Hin) as (_ & doc & Hdoc & Hd).
    exists doc. split; [done|]. congruence.
Qed.

Lemma run_saves_numbered_chunks_of_user_witness :
  ∃ chunks,
    Ingestor.save_chunks notes_world "u1"
      [ mkChunk "notes.txt" 0 "Overview First paragraph. Second paragraph."
          "text" 0 "u1" ]
    = save_chunks notes_world "u1" chunks
    ∧ chunk_id <$> chunks = Z.of_nat <$> seq 0 (length chunks)
    ∧ Forall (λ ch, ch_user_id ch = "u1"
                    ∧ ∃ doc, In doc (load_documents notes_world "u1")
                             ∧ ch_filename ch = doc_name doc) chunks.
Proof.
  apply (run_saves_numbered_chunks_of_user in_one_piece default_chunker
           Layout "u1" notes_world).
  vm_compute. reflexivity.
Defined.

End IngestorMore.

(** ** More on the indexer and the searcher *)

Module IndexMore.

Lemma mapping_lookup_shift (chunks : list Chunk) (k j : nat) :
  (list_to_map (imap (λ i ch, ((k + i)%nat, chunk_id ch)) chunks)
     : gmap nat Z) !! j
  = if decide (j < k)%nat then None else chunk_id <$> chunks !! (j - k)%nat.
Proof.
  revert k. induction chunks as [|ch rest IH]; intros k.
  - simpl. rewrite lookup_empty. by case_decide.
  - rewrite imap_cons. simpl.
    rewrite (imap_ext _ (λ i c, ((S k + i)%nat, chunk_id c)))
      by (intros; simpl; f_equal; lia).
    destruct (decide (j = k)) as [->|Hne].
    + rewrite Nat.add_0_r, lookup_insert_eq, decide_False by lia.
      by rewrite Nat.sub_diag.
    + rewrite Nat.add_0_r, lookup_insert_ne by done. rewrite IH.
      repeat case_decide; try lia; [done|].
      replace (j - k)%nat with (S (j - S k)) by lia. done.
Qed.

Lemma mapping_lookup (chunks : list Chunk) (i : nat) :
  Indexer.mapping_of chunks !! i = chunk_id <$> chunks !! i.
Proof.
  unfold Indexer.mapping_of.
  rewrite (imap_ext _ (λ i c, ((0 + i)%nat, chunk_id c))) by done.
  rewrite mapping_lookup_shift. rewrite decide_False by lia.
  by rewrite Nat.sub_0_r.
Qed.





(** X25.  After a run of the indexer that does not raise for a user with
    chunks, the index file of the user holds one vector per chunk, in the
    order of the chunk file, with room for twice as many, and the mapping
    file gives each label the id of the chunk at that place. *)
Theorem index_follows_chunk_file (policy : AddPolicy) (user : string)
  (w w' : World) :
  Indexer.load_chunks w user ≠ [] →
  Indexer.run policy user w = Ok w' →
  let chunks := Indexer.load_chunks w user in
  hnsw_files w' !! user
  = Some (mkHnswIndex (length chunks * 2)
            ((λ ch, Embedding (ch_text ch)) <$> chunks))
  ∧ ∃ idx_to_uid, mapping_files w' !! user = Some idx_to_uid
      ∧ ∀ i, idx_to_uid !! i = chunk_id <$> chunks !! i.
Proof.
  intros Hne Hrun chunks. unfold Indexer.run in Hrun. fold chunks in Hrun, Hne.
  destruct chunks as [|ch rest] eqn:E; [done|]. rewrite <- E in *.
  unfold Indexer.index_chunks in Hrun.
  destruct (Chroma.add _ _ _) as [store|]; [|done]. simpl in Hrun.
  rewrite E in Hrun at 1. simplify_eq. simpl.
  rewrite !lookup_insert_eq, length_fmap. split; [done|].
  eexists. split; [done|]. apply mapping_lookup.
Qed.

Lemma index_follows_chunk_file_witness :
  let chunks := Indexer.load_chunks two_users_world "alice" in
  hnsw_files
    (mkWorld ∅ (chunk_files two_users_world)
       {[ "alice" := mkHnswIndex 2 [Embedding "the private notes of alice"] ]}
       {[ "alice" := {[ 0%nat := 0 ]} ]}
       [Indexer.record_of "alice" alice_chunk]) !! "alice"
  = Some (mkHnswIndex (length chunks * 2)
            ((λ ch, Embedding (ch_text ch)) <$> chunks))
  ∧ ∃ idx_to_uid,
      mapping_files
        (mkWorld ∅ (chunk_files two_users_world)
           {[ "alice" := mkHnswIndex 2 [Embedding "the private notes of alice"] ]}
           {[ "alice" := {[ 0%nat := 0 ]} ]}
           [Indexer.record_of "alice" alice_chunk]) !! "alice"
      = Some idx_to_uid
      ∧ ∀ i, idx_to_uid !! i = chunk_id <$> chunks !! i.
Proof.
  apply (index_follows_chunk_file SkipExisting "alice" two_users_world).
  - vm_compute. discriminate.
  - vm_compute. reflexivity.
Defined.



End IndexMore.

(** ** The reranker *)

Module RerankerProps.
Import Reranker.

(** [x] stands before [y] in a descending order of the scores. *)
#[local] Abbreviation before x y := (rerank_score y <= rerank_score x)%Q.

Lemma insert_desc_perm (d : Reranked) (l : list Reranked) :
  insert_desc d l ≡ₚ d :: l.
Proof.
  induction l as [|x r IH]; simpl; [done|].
  destruct (Qle_bool _ _); [|done]. rewrite IH. apply Permutation_swap.
Qed.

Lemma insert_desc_sorted (d : Reranked) (l : list Reranked) :
  StronglySorted (λ x y, before x y) l →
  StronglySorted (λ x y, before x y) (insert_desc d l).
Proof.
  induction l as [|x r IH]; intros Hs; simpl.
  - repeat constructor.
  - apply StronglySorted_inv in Hs as [Hr Hall].
    destruct (Qle_bool (rerank_score d) (rerank_score x)) eqn:E.
    + apply Qle_bool_iff in E. constructor; [by apply IH|].
      rewrite insert_desc_perm. by constructor.
    + assert (rerank_score x <= rerank_score d)%Q as Hxd.
      { apply Qlt_le_weak, Qnot_le_lt. intros Hle.
        apply Qle_bool_iff in Hle. congruence. }
      constructor; [by constructor|]. constructor; [done|].
      eapply Forall_impl; [exact Hall|]. intros y Hy. simpl in *.
      by eapply Qle_trans.
Qed.

Lemma sorted_desc_spec (l : list Reranked) :
  StronglySorted (λ x y, before x y) (sorted_desc l) ∧ sorted_desc l ≡ₚ l.
Proof.
  unfold sorted_desc.
  assert (∀ acc, StronglySorted (λ x y, before x y) acc →
            StronglySorted (λ x y, before x y)
              (foldl (λ acc d, insert_desc d acc) acc l)
            ∧ foldl (λ acc d, insert_desc d acc) acc l ≡ₚ acc ++ l) as H.
  { induction l as [|d l IH]; intros acc Hacc; simpl.
    - by rewrite app_nil_r.
    - destruct (IH (insert_desc d acc)) as [Hs Hp];
        [by apply insert_desc_sorted|].
      split; [done|]. rewrite Hp, insert_desc_perm. simpl.
      apply Permutation_middle. }
  apply (H []). constructor.
Qed.

Lemma slice_to_take {A} (top_k : Z) (l : list A) :
  ∃ n, slice_to top_k l = take n l
       ∧ length (slice_to top_k l)
         = if top_k <? 0 then (length l - Z.to_nat (- top_k))%nat
           else (Z.to_nat top_k `min` length l)%nat.
Proof.
  unfold slice_to. destruct (top_k <? 0); eexists; split; try done;
    rewrite length_take; lia.
Qed.

(** The guard for no document returns what the rest of the function would. *)
Lemma rerank_unguarded (model : CrossEncoder) (query : string)
  (docs : list Searcher.Match) (top_k : Z) :
  rerank model query docs top_k
  = slice_to top_k (sorted_desc (score_docs model query docs)).
Proof.
  destruct docs; [|done]. unfold rerank, slice_to.
  change (sorted_desc (score_docs model query [])) with (@nil Reranked).
  destruct (top_k <? 0); by rewrite take_nil.
Qed.

Lemma rerank_shape (model : CrossEncoder) (query : string)
  (docs : list Searcher.Match) (top_k : Z) :
  ∃ rest,
    rerank model query docs top_k ++ rest ≡ₚ score_docs model query docs
    ∧ StronglySorted (λ x y, before x y)
        (rerank model query docs top_k ++ rest)
    ∧ length (rerank model query docs top_k)
      = if top_k <? 0 then (length docs - Z.to_nat (- top_k))%nat
        else (Z.to_nat top_k `min` length docs)%nat.
Proof.
  rewrite rerank_unguarded.
  destruct (sorted_desc_spec (score_docs model query docs)) as [Hs Hp].
  destruct (slice_to_take top_k (sorted_desc (score_docs model query docs)))
    as (n & Hn & Hlen).
  exists (drop n (sorted_desc (score_docs model query docs))).
  assert (length (sorted_desc (score_docs model query docs)) = length docs)
    as Hl by (rewrite Hp; apply length_fmap).
  rewrite Hlen, Hn, take_drop, Hl. done.
Qed.

(** X27.  The reranker scores every document with the cross encoder and
    returns a first part of the documents put in descending order of score:
    no document it leaves out has a higher score than one it returns.  It
    returns [top_k] documents, or all of them when there are fewer; with a
    negative [top_k] it leaves out the last [-top_k] instead. *)
Theorem rerank_returns_best (model : CrossEncoder) (query : string)
  (docs : list Searcher.Match) (top_k : Z) :
  ∃ rest,
    rerank model query docs top_k ++ rest ≡ₚ score_docs model query docs
    ∧ StronglySorted (λ x y, (rerank_score y <= rerank_score x)%Q)
        (rerank model query docs top_k ++ rest)
    ∧ length (rerank model query docs top_k)
      = if top_k <? 0 then (length docs - Z.to_nat (- top_k))%nat
        else (Z.to_nat top_k `min` length docs)%nat.
Proof. apply rerank_shape. Qed.



End RerankerProps.
